(** * Array-backed binary heaps (MaxHeap / MinHeap)

    A shallow embedding of
    [implementation_code/dynamic_array/Heap/max_heap.py] and
    [implementation_code/dynamic_array/Heap/min_heap.py].

    A Python [List[int]] is a [list Z]; indices are Python integers
    ([Z]), with Python's meaning of negative indices and [IndexError]
    for indices out of range.  The methods mutate one list object in
    place, so they are written in a state-and-exception monad whose
    state is that list: an exception leaves the list as it was when
    the exception was raised.

    The last part embeds
    [implementation_code/dynamic_array/dynamic_array_using_static_array_in_python3.py]:
    a [DynamicArray] object is a record of its three fields, the
    [ctypes.py_object] array a list of slots that are NULL or refer to an
    object, and its methods run in a state-and-exception monad over that
    record. *)

From Stdlib Require Import ZArith Lia List Bool Sorted.
From Stdlib Require String DecimalString.
From stdpp Require Import base list.
Import String.StringSyntax.

Local Open Scope Z_scope.
Local Delimit Scope string_scope with string.

(** [lia] also decides goals with [/ 2], Python's [// 2]. *)
Ltac Zify.zify_post_hook ::= Z.to_euclidean_division_equations.

(** ** The monad *)

Inductive exn : Type :=
| IndexError.

Inductive outcome (A : Type) : Type :=
| Ret (a : A)
| Raise (e : exn)
| OutOfFuel.

Arguments Ret {A} a.
Arguments Raise {A} e.
Arguments OutOfFuel {A}.

(** A computation over the list object: the outcome and the list as the
    computation leaves it. *)
Definition M (A : Type) : Type := list Z -> outcome A * list Z.

Definition ret {A} (a : A) : M A := fun array => (Ret a, array).

Definition bind {A B} (m : M A) (f : A -> M B) : M B :=
  fun array =>
    match m array with
    | (Ret a, array') => f a array'
    | (Raise e, array') => (Raise e, array')
    | (OutOfFuel, array') => (OutOfFuel, array')
    end.

Notation "x <- m ;; k" := (bind m (fun x => k))
  (at level 100, m at next level, right associativity).
Notation "m ;;; k" := (bind m (fun _ => k))
  (at level 100, right associativity).

(** ** Python list primitives *)

(** [len(array)] *)
Definition len (array : list Z) : Z := Z.of_nat (length array).

Definition py_len : M Z := fun array => (Ret (len array), array).

(** A negative index counts from the end. *)
Definition norm_index (n i : Z) : Z := if i <? 0 then i + n else i.

Definition in_range (n j : Z) : bool := (0 <=? j) && (j <? n).

(** [array[i]] *)
Definition getitem (i : Z) : M Z :=
  fun array =>
    let j := norm_index (len array) i in
    if in_range (len array) j
    then (Ret (nth (Z.to_nat j) array 0), array)
    else (Raise IndexError, array).

(** [array[i] = x] *)
Definition setitem (i x : Z) : M unit :=
  fun array =>
    let j := norm_index (len array) i in
    if in_range (len array) j
    then (Ret tt, <[Z.to_nat j := x]> array)
    else (Raise IndexError, array).

(** [array.append(x)] *)
Definition py_append (x : Z) : M unit :=
  fun array => (Ret tt, array ++ [x]).

(** [array.pop()]: removes and returns the last item. *)
Definition py_pop : M Z :=
  fun array =>
    match array with
    | [] => (Raise IndexError, array)
    | _ :: _ => (Ret (List.last array 0), removelast array)
    end.

(** [range(start, stop, -1)] as the list of its values. *)
Definition range_down (start stop : Z) : list Z :=
  map (fun k => start - Z.of_nat k) (seq 0 (Z.to_nat (start - stop))).

(** [for x in xs: body(x)] *)
Fixpoint for_each (xs : list Z) (body : Z -> M unit) : M unit :=
  match xs with
  | [] => ret tt
  | x :: xs' => body x ;;; for_each xs' body
  end.

(** ** max_heap.py *)

Module MaxHeap.

(** [_swap_element]: the right-hand side [array[index_b], array[index_a]]
    is read first, then the two stores happen left to right. *)
Definition _swap_element (index_a index_b : Z) : M unit :=
  vb <- getitem index_b ;;
  va <- getitem index_a ;;
  setitem index_a vb ;;;
  setitem index_b va.

(** The [while] loop of [_sink_down]; the loop state is
    [(curr_index, left_child_index)].  One unit of fuel per iteration. *)
Fixpoint _sink_down_loop (fuel : nat) (curr_index left_child_index last_index : Z)
  : M unit :=
  if left_child_index <=? last_index then
    match fuel with
    | O => fun array => (OutOfFuel, array)
    | S fuel' =>
        let right_child_index :=
          if left_child_index <? last_index then 2 * curr_index + 2 else -1 in
        index_to_swap <-
          (if negb (right_child_index =? -1)
           then r <- getitem right_child_index ;;
                l <- getitem left_child_index ;;
                ret (if r >? l then right_child_index else left_child_index)
           else ret left_child_index) ;;
        s <- getitem index_to_swap ;;
        c <- getitem curr_index ;;
        if s >? c then
          _swap_element index_to_swap curr_index ;;;
          _sink_down_loop fuel' index_to_swap (2 * index_to_swap + 1) last_index
        else ret tt
    end
  else ret tt.

Definition _sink_down (fuel : nat) (curr_index last_index : Z) : M unit :=
  let left_child_index := 2 * curr_index + 1 in
  _sink_down_loop fuel curr_index left_child_index last_index.

(** The [while] loop of [_sink_up]; the loop state is
    [(curr_index, parent_index)]. *)
Fixpoint _sink_up_loop (fuel : nat) (curr_index parent_index : Z) : M unit :=
  continue <-
    (if curr_index >? 0
     then p <- getitem parent_index ;;
          c <- getitem curr_index ;;
          ret (p <? c)
     else ret false) ;;
  if continue : bool then
    match fuel with
    | O => fun array => (OutOfFuel, array)
    | S fuel' =>
        _swap_element parent_index curr_index ;;;
        _sink_up_loop fuel' parent_index ((parent_index - 1) / 2)
    end
  else ret tt.

Definition _sink_up (fuel : nat) (curr_index : Z) : M unit :=
  let parent_index := (curr_index - 1) / 2 in
  _sink_up_loop fuel curr_index parent_index.

(** [_heapify]: every sink-down gets the length of the array as fuel. *)
Definition _heapify : M unit :=
  n <- py_len ;;
  let last_parent_index := (n - 2) / 2 in
  for_each (range_down last_parent_index (-1))
    (fun curr_index =>
       m <- py_len ;;
       _sink_down (Z.to_nat n) curr_index (m - 1)).

(** [MaxHeap(array)]: the object's [max_heap] field is the list the
    computation leaves. *)
Definition init : M unit := _heapify.

Definition peak : M Z := getitem 0.

Definition push (element : Z) : M unit :=
  py_append element ;;;
  n <- py_len ;;
  _sink_up (Z.to_nat n) (n - 1).

Definition pop : M Z :=
  fun array =>
    match array with
    | _ :: _ =>
        (n <- py_len ;;
         _swap_element 0 (n - 1) ;;;
         element_to_remove <- py_pop ;;
         m <- py_len ;;
         _sink_down (Z.to_nat m) 0 (m - 1) ;;;
         ret element_to_remove) array
    | [] => (Ret (-1), array)
    end.

End MaxHeap.

(** ** min_heap.py *)

Module MinHeap.

Definition _swap_element (index_a index_b : Z) : M unit :=
  vb <- getitem index_b ;;
  va <- getitem index_a ;;
  setitem index_a vb ;;;
  setitem index_b va.

Fixpoint _sink_down_loop (fuel : nat) (curr_index left_child_index last_index : Z)
  : M unit :=
  if left_child_index <=? last_index then
    match fuel with
    | O => fun array => (OutOfFuel, array)
    | S fuel' =>
        let right_child_index :=
          if left_child_index <? last_index then 2 * curr_index + 2 else -1 in
        index_to_swap <-
          (if negb (right_child_index =? -1)
           then r <- getitem right_child_index ;;
                l <- getitem left_child_index ;;
                ret (if r <? l then right_child_index else left_child_index)
           else ret left_child_index) ;;
        s <- getitem index_to_swap ;;
        c <- getitem curr_index ;;
        if s <? c then
          _swap_element index_to_swap curr_index ;;;
          _sink_down_loop fuel' index_to_swap (2 * index_to_swap + 1) last_index
        else ret tt
    end
  else ret tt.

Definition _sink_down (fuel : nat) (curr_index last_index : Z) : M unit :=
  let left_child_index := 2 * curr_index + 1 in
  _sink_down_loop fuel curr_index left_child_index last_index.

Fixpoint _sink_up_loop (fuel : nat) (curr_index parent_index : Z) : M unit :=
  continue <-
    (if curr_index >? 0
     then p <- getitem parent_index ;;
          c <- getitem curr_index ;;
          ret (p >? c)
     else ret false) ;;
  if continue : bool then
    match fuel with
    | O => fun array => (OutOfFuel, array)
    | S fuel' =>
        _swap_element parent_index curr_index ;;;
        _sink_up_loop fuel' parent_index ((parent_index - 1) / 2)
    end
  else ret tt.

Definition _sink_up (fuel : nat) (curr_index : Z) : M unit :=
  let parent_index := (curr_index - 1) / 2 in
  _sink_up_loop fuel curr_index parent_index.

Definition _heapify : M unit :=
  n <- py_len ;;
  let last_parent_index := (n - 2) / 2 in
  for_each (range_down last_parent_index (-1))
    (fun curr_index =>
       m <- py_len ;;
       _sink_down (Z.to_nat n) curr_index (m - 1)).

Definition init : M unit := _heapify.

Definition peak : M Z := getitem 0.

Definition push (element : Z) : M unit :=
  py_append element ;;;
  n <- py_len ;;
  _sink_up (Z.to_nat n) (n - 1).

Definition pop : M Z :=
  fun array =>
    match array with
    | _ :: _ =>
        (n <- py_len ;;
         _swap_element 0 (n - 1) ;;;
         element_to_remove <- py_pop ;;
         m <- py_len ;;
         _sink_down (Z.to_nat m) 0 (m - 1) ;;;
         ret element_to_remove) array
    | [] => (Ret (-1), array)
    end.

End MinHeap.

(** ** Specification vocabulary *)

(** [zth l i] is the item a successful [l[i]] reads at a non-negative
    index. *)
Definition zth (l : list Z) (i : Z) : Z := nth (Z.to_nat i) l 0.

(** The list after exchanging positions [a] and [b]. *)
Definition lswap (l : list Z) (a b : Z) : list Z :=
  <[Z.to_nat b := zth l a]> (<[Z.to_nat a := zth l b]> l).

(** The heap property of [max_heap.py]: every non-root item is at most
    its parent. *)
Definition is_max_heap (l : list Z) : Prop :=
  forall i, 1 <= i < len l -> zth l ((i - 1) / 2) >= zth l i.

(** The heap property of [min_heap.py]. *)
Definition is_min_heap (l : list Z) : Prop :=
  forall i, 1 <= i < len l -> zth l ((i - 1) / 2) <= zth l i.

(** Only the parents at index [k] and above are known to dominate their
    children. *)
Definition max_heap_from (k : Z) (l : list Z) : Prop :=
  forall i, 1 <= i < len l -> k <= (i - 1) / 2 -> zth l i <= zth l ((i - 1) / 2).

(** The loop invariant of sinking down from [k]: the item now at [c] is
    the only parent from [k] on that may be smaller than a child, and
    the children of [c] are dominated by the parent of [c]. *)
Definition sink_down_inv (k c : Z) (l : list Z) : Prop :=
  (forall i, 1 <= i < len l -> k <= (i - 1) / 2 -> (i - 1) / 2 <> c ->
             zth l i <= zth l ((i - 1) / 2)) /\
  (c <> k -> forall i, 1 <= i < len l -> (i - 1) / 2 = c ->
             zth l i <= zth l ((c - 1) / 2)).

(** The child [_sink_down] of [max_heap.py] compares with. *)
Definition max_child (l : list Z) (c last : Z) : Z :=
  if 2 * c + 1 <? last
  then (if zth l (2 * c + 2) >? zth l (2 * c + 1) then 2 * c + 2 else 2 * c + 1)
  else 2 * c + 1.

(** The loop invariant of [_sink_up]: the item now at [c] is the only one
    that may exceed its parent, and the children of [c] are dominated by
    the parent of [c]. *)
Definition sink_up_inv (c : Z) (l : list Z) : Prop :=
  (forall i, 1 <= i < len l -> i <> c -> zth l i <= zth l ((i - 1) / 2)) /\
  (1 <= c -> forall i, 1 <= i < len l -> (i - 1) / 2 = c ->
             zth l i <= zth l ((c - 1) / 2)).

(** The list with every item negated. *)
Definition neg (l : list Z) : list Z := map Z.opp l.

(** The outcome and list of a run, seen through negation of the items;
    [g] says what negation does to the returned value. *)
Definition dual {A} (g : A -> A) (r : outcome A * list Z) : outcome A * list Z :=
  (match fst r with
   | Ret a => Ret (g a)
   | Raise e => Raise e
   | OutOfFuel => OutOfFuel
   end, neg (snd r)).

(** [mirror g m_min m_max]: running [m_min] on the negated list is
    running [m_max] on the list, seen through negation. *)
Definition mirror {A} (g : A -> A) (m_min m_max : M A) : Prop :=
  forall l, m_min (neg l) = dual g (m_max l).

(** The two classes of the repository. *)
Inductive heap_class : Type :=
| Max
| Min.

(** The heap property of the class. *)
Definition is_heap (o : heap_class) : list Z -> Prop :=
  match o with
  | Max => is_max_heap
  | Min => is_min_heap
  end.

(** [x] may stand above [y] in a heap of the class. *)
Definition above (o : heap_class) (x y : Z) : Prop :=
  match o with
  | Max => x >= y
  | Min => x <= y
  end.

(** [MaxHeap(array)] or [MinHeap(array)] *)
Definition heap_init (o : heap_class) : M unit :=
  match o with
  | Max => MaxHeap.init
  | Min => MinHeap.init
  end.

Definition heap_peak (o : heap_class) : M Z :=
  match o with
  | Max => MaxHeap.peak
  | Min => MinHeap.peak
  end.

Definition heap_push (o : heap_class) (element : Z) : M unit :=
  match o with
  | Max => MaxHeap.push element
  | Min => MinHeap.push element
  end.

Definition heap_pop (o : heap_class) : M Z :=
  match o with
  | Max => MaxHeap.pop
  | Min => MinHeap.pop
  end.

(** The heap property of the class, checked item by item. *)
Definition is_heapb (o : heap_class) (l : list Z) : bool :=
  forallb
    (fun n => let i := Z.of_nat n in
              match o with
              | Max => zth l ((i - 1) / 2) >=? zth l i
              | Min => zth l ((i - 1) / 2) <=? zth l i
              end)
    (seq 1 (length l - 1)).

(** A call of a public method on a heap object. *)
Inductive op : Type :=
| Push (element : Z)
| Pop
| Peak.

(** One method call; [push] returns Python's [None]. *)
Definition call (o : heap_class) (c : op) : M (option Z) :=
  match c with
  | Push element => heap_push o element ;;; ret None
  | Pop => v <- heap_pop o ;; ret (Some v)
  | Peak => v <- heap_peak o ;; ret (Some v)
  end.

(** The calls one after the other, with the values they return; an
    exception ends the sequence. *)
Fixpoint run (o : heap_class) (cs : list op) : M (list (option Z)) :=
  match cs with
  | [] => ret []
  | c :: cs' => v <- call o c ;; vs <- run o cs' ;; ret (v :: vs)
  end.

Definition is_push (c : op) : bool :=
  match c with Push _ => true | _ => false end.

Definition is_pop (c : op) : bool :=
  match c with Pop => true | _ => false end.

Definition is_peak (c : op) : bool :=
  match c with Peak => true | _ => false end.

(** How many pushes, and how many pops, a sequence of calls makes. *)
Definition pushes (cs : list op) : nat := length (List.filter is_push cs).

Definition pops (cs : list op) : nat := length (List.filter is_pop cs).

(** No pop finds the heap empty: a heap of [n0] items has, before every
    call of [cs], been popped at most as often as it holds and was
    pushed. *)
Definition pops_covered (n0 : nat) (cs : list op) : Prop :=
  forall n, (pops (take n cs) <= n0 + pushes (take n cs))%nat.

(** [while heap: out.append(heap.pop())], one unit of fuel per pop. *)
Fixpoint drain (o : heap_class) (fuel : nat) : M (list Z) :=
  fun array =>
    match array with
    | [] => (Ret [], array)
    | _ :: _ =>
        match fuel with
        | O => (OutOfFuel, array)
        | S fuel' =>
            (v <- heap_pop o ;; vs <- drain o fuel' ;; ret (v :: vs)) array
        end
    end.

(** Build the heap from the array, then pop until it is empty. *)
Definition heap_sort (o : heap_class) : M (list Z) :=
  heap_init o ;;;
  n <- py_len ;;
  drain o (Z.to_nat n).

(** The call on the negated items. *)
Definition neg_op (c : op) : op :=
  match c with
  | Push element => Push (- element)
  | Pop => Pop
  | Peak => Peak
  end.

(** A returned value, negated; [None] stays [None]. *)
Definition neg_value (v : option Z) : option Z := option_map Z.opp v.

(** Building the heap, then the calls. *)
Definition session (o : heap_class) (cs : list op) : M (list (option Z)) :=
  heap_init o ;;; run o cs.

(** [_sink_down] of either class. *)
Definition heap_sink_down (o : heap_class) (fuel : nat) (curr_index last_index : Z)
  : M unit :=
  match o with
  | Max => MaxHeap._sink_down fuel curr_index last_index
  | Min => MinHeap._sink_down fuel curr_index last_index
  end.

(** ** dynamic_array_using_static_array_in_python3.py *)

(** [range(start, stop)] as the list of its values. *)
Definition range_up (start stop : Z) : list Z :=
  map (fun k => start + Z.of_nat k) (seq 0 (Z.to_nat (stop - start))).

Module DynamicArray.

(** The objects stored; the class never looks inside one, except
    [__repr__], which prints it with [str]. *)
Inductive pyobj : Type :=
| PyNone
| PyInt (z : Z)
| PyStr (s : String.string).

(** A [ctypes.py_object] array: a fixed number of slots, each a NULL
    pointer ([None] here) or a reference to an object. *)
Abbreviation carray := (list (option pyobj)).

Inductive error : Type :=
| PyIndexError
| PyValueError.

Inductive result (A : Type) : Type :=
| Ok (a : A)
| Err (e : error).

Arguments Ok {A} a.
Arguments Err {A} e.

(** The fields of a [DynamicArray] object. *)
Record t : Type := mk {
  _n : Z;
  _capacity : Z;
  _array : carray
}.

(** A method: its result and the object as the call leaves it. *)
Definition D (A : Type) : Type := t -> result A * t.

Definition dret {A} (a : A) : D A := fun self => (Ok a, self).

Definition dbind {A B} (m : D A) (f : A -> D B) : D B :=
  fun self =>
    match m self with
    | (Ok a, self') => f a self'
    | (Err e, self') => (Err e, self')
    end.

Definition draise {A} (e : error) : D A := fun self => (Err e, self).

(** [for x in xs: body(x)] on the object. *)
Fixpoint dfor (xs : list Z) (body : Z -> D unit) : D unit :=
  match xs with
  | [] => dret tt
  | x :: xs' => dbind (body x) (fun _ => dfor xs' body)
  end.

(** Number of slots of a ctypes array. *)
Definition clen (arr : carray) : Z := Z.of_nat (length arr).

(** [arr[i]] on a ctypes array: a negative index counts from the end, an
    index out of range is an [IndexError], and reading a NULL slot is a
    [ValueError]. *)
Definition carray_get (arr : carray) (i : Z) : result pyobj :=
  let j := norm_index (clen arr) i in
  if in_range (clen arr) j
  then match nth (Z.to_nat j) arr None with
       | Some v => Ok v
       | None => Err PyValueError
       end
  else Err PyIndexError.

(** [arr[i] = v] on a ctypes array. *)
Definition carray_set (arr : carray) (i : Z) (v : pyobj) : result carray :=
  let j := norm_index (clen arr) i in
  if in_range (clen arr) j
  then Ok (<[Z.to_nat j := Some v]> arr)
  else Err PyIndexError.

(** [(new_capacity * ctypes.py_object)()]: all slots NULL; a negative
    length is a [ValueError]. *)
Definition _make_array (new_capacity : Z) : result carray :=
  if new_capacity <? 0 then Err PyValueError
  else Ok (replicate (Z.to_nat new_capacity) None).

(** [self._array[i]] *)
Definition get_slot (i : Z) : D pyobj :=
  fun self =>
    match carray_get (_array self) i with
    | Ok v => (Ok v, self)
    | Err e => (Err e, self)
    end.

(** [self._array[i] = v] *)
Definition set_slot (i : Z) (v : pyobj) : D unit :=
  fun self =>
    match carray_set (_array self) i v with
    | Ok arr => (Ok tt, mk (_n self) (_capacity self) arr)
    | Err e => (Err e, self)
    end.

(** [DynamicArray()] *)
Definition __init__ : result t :=
  match _make_array 1 with
  | Ok arr => Ok (mk 0 1 arr)
  | Err e => Err e
  end.

Definition __len__ : D Z := fun self => (Ok (_n self), self).

Definition __getitem__ (index : Z) : D pyobj :=
  fun self =>
    if (0 <=? index) && (index <? _n self)
    then get_slot index self
    else (Err PyIndexError, self).

(** The copying loop of [_resize], on the local [new_array]. *)
Fixpoint _resize_copy (indices : list Z) (old new_array : carray) : result carray :=
  match indices with
  | [] => Ok new_array
  | index :: rest =>
      match carray_get old index with
      | Ok v =>
          match carray_set new_array index v with
          | Ok new_array' => _resize_copy rest old new_array'
          | Err e => Err e
          end
      | Err e => Err e
      end
  end.

(** [_resize]: the fields change only after the copy is complete. *)
Definition _resize (new_capacity : Z) : D unit :=
  fun self =>
    match _make_array new_capacity with
    | Ok new_array =>
        match _resize_copy (range_up 0 (_n self)) (_array self) new_array with
        | Ok new_array' => (Ok tt, mk (_n self) new_capacity new_array')
        | Err e => (Err e, self)
        end
    | Err e => (Err e, self)
    end.

Definition insert_at (element : pyobj) (index : Z) : D unit :=
  fun self =>
    if (0 <=? index) && (index <=? _n self)
    then
      dbind (if _n self =? _capacity self
             then _resize (2 * _capacity self)
             else dret tt)
        (fun _ =>
           dbind (fun self1 =>
                    dfor (range_down (_n self1 - 1) (index - 1))
                      (fun ind => dbind (get_slot ind)
                                    (fun v => set_slot (ind + 1) v)) self1)
             (fun _ =>
                dbind (set_slot index element)
                  (fun _ self2 =>
                     (Ok tt, mk (_n self2 + 1) (_capacity self2) (_array self2)))))
        self
    else (Err PyIndexError, self).

Definition append (element : pyobj) : D unit :=
  fun self => insert_at element (_n self) self.

Definition remove_at (index : Z) : D unit :=
  fun self =>
    if (0 <=? index) && (index <? _n self)
    then
      dbind (dfor (range_up index (_n self - 1))
               (fun ind => dbind (get_slot (ind + 1))
                             (fun v => set_slot ind v)))
        (fun _ =>
           dbind (fun self1 => set_slot (_n self1 - 1) PyNone self1)
             (fun _ self2 =>
                (Ok tt, mk (_n self2 - 1) (_capacity self2) (_array self2))))
        self
    else (Err PyIndexError, self).

Definition delete : D unit :=
  fun self => remove_at (_n self - 1) self.

(** Python's [str] on the objects of [pyobj]. *)
Definition str (v : pyobj) : String.string :=
  match v with
  | PyNone => "None"%string
  | PyInt z => DecimalString.NilZero.string_of_int (Z.to_int z)
  | PyStr s => s
  end.

(** The loop of [__repr__], on the local [string_list]. *)
Fixpoint _repr_loop (indices : list Z) (arr : carray) (string_list : list String.string)
  : result (list String.string) :=
  match indices with
  | [] => Ok string_list
  | ind :: rest =>
      match carray_get arr ind with
      | Ok v => _repr_loop rest arr (string_list ++ [","%string] ++ [str v])
      | Err e => Err e
      end
  end.

Definition __repr__ : D String.string :=
  fun self =>
    match carray_get (_array self) 0 with
    | Ok v0 =>
        match _repr_loop (range_up 1 (_n self)) (_array self)
                ["["%string; str v0] with
        | Ok string_list =>
            (Ok (String.concat ""%string (string_list ++ ["]"%string])), self)
        | Err e => (Err e, self)
        end
    | Err e => (Err e, self)
    end.

(** The object holds exactly the items [xs], in order, in the first
    [len(xs)] slots of an array of [_capacity] slots. *)
Definition represents (self : t) (xs : list pyobj) : Prop :=
  _n self = Z.of_nat (length xs) /\
  _capacity self = clen (_array self) /\
  1 <= _capacity self /\
  take (length xs) (_array self) = map Some xs.

End DynamicArray.

(** [for e in es: array.append(e)] on a dynamic array. *)
Fixpoint dyn_append_all (es : list DynamicArray.pyobj) : DynamicArray.D unit :=
  match es with
  | [] => DynamicArray.dret tt
  | e :: es' =>
      DynamicArray.dbind (DynamicArray.append e) (fun _ => dyn_append_all es')
  end.

(** * Proofs *)

(** ** Reading and writing in range *)

Lemma bind_Ret {A B} (m : M A) (k : A -> M B) (l l' : list Z) (a : A) :
  m l = (Ret a, l') -> bind m k l = k a l'.
Proof. intros H. unfold bind. now rewrite H. Qed.

Lemma len_nonneg (l : list Z) : 0 <= len l.
Proof. unfold len. lia. Qed.

Lemma len_app_one (l : list Z) (x : Z) : len (l ++ [x]) = len l + 1.
Proof. unfold len. rewrite length_app. simpl. lia. Qed.

Lemma len_insert (l : list Z) (n : nat) (x : Z) : len (<[n := x]> l) = len l.
Proof. unfold len. now rewrite length_insert. Qed.

Lemma len_lswap (l : list Z) (a b : Z) : len (lswap l a b) = len l.
Proof. unfold lswap. now rewrite !len_insert. Qed.

Lemma in_range_true (n j : Z) : 0 <= j < n -> in_range n j = true.
Proof. unfold in_range. intros. apply andb_true_intro. split; lia. Qed.

Lemma norm_index_nonneg (n i : Z) : 0 <= i -> norm_index n i = i.
Proof. unfold norm_index. intros. destruct (Z.ltb_spec i 0); lia. Qed.

Lemma getitem_ok (l : list Z) (i : Z) :
  0 <= i < len l -> getitem i l = (Ret (zth l i), l).
Proof.
  intros H. unfold getitem. rewrite norm_index_nonneg by lia.
  now rewrite in_range_true.
Qed.

Lemma setitem_ok (l : list Z) (i x : Z) :
  0 <= i < len l -> setitem i x l = (Ret tt, <[Z.to_nat i := x]> l).
Proof.
  intros H. unfold setitem. rewrite norm_index_nonneg by lia.
  now rewrite in_range_true.
Qed.

Lemma zth_insert_eq (l : list Z) (i x : Z) :
  0 <= i < len l -> zth (<[Z.to_nat i := x]> l) i = x.
Proof.
  intros H. unfold zth. rewrite nth_lookup.
  rewrite list_lookup_insert_eq; [reflexivity | unfold len in H; lia].
Qed.

Lemma zth_insert_ne (l : list Z) (i j x : Z) :
  0 <= i -> 0 <= j -> i <> j -> zth (<[Z.to_nat i := x]> l) j = zth l j.
Proof.
  intros Hi Hj Hne. unfold zth. rewrite !nth_lookup.
  rewrite list_lookup_insert_ne; [reflexivity | lia].
Qed.

Lemma zth_lswap_l (l : list Z) (a b : Z) :
  0 <= a < len l -> 0 <= b < len l -> zth (lswap l a b) a = zth l b.
Proof.
  intros Ha Hb. unfold lswap. destruct (Z.eq_dec a b) as [->|Hne].
  - rewrite zth_insert_eq; [reflexivity | now rewrite len_insert].
  - rewrite zth_insert_ne by lia. now rewrite zth_insert_eq.
Qed.

Lemma zth_lswap_r (l : list Z) (a b : Z) :
  0 <= a < len l -> 0 <= b < len l -> zth (lswap l a b) b = zth l a.
Proof.
  intros Ha Hb. unfold lswap.
  rewrite zth_insert_eq; [reflexivity | now rewrite len_insert].
Qed.

Lemma zth_lswap_other (l : list Z) (a b j : Z) :
  0 <= a -> 0 <= b -> 0 <= j -> j <> a -> j <> b ->
  zth (lswap l a b) j = zth l j.
Proof.
  intros Ha Hb Hj Hja Hjb. unfold lswap.
  rewrite !zth_insert_ne by lia. reflexivity.
Qed.

Lemma zth_app_l (l : list Z) (x i : Z) :
  0 <= i < len l -> zth (l ++ [x]) i = zth l i.
Proof.
  intros H. unfold zth. apply app_nth1. unfold len in H. lia.
Qed.

Lemma zth_app_last (l : list Z) (x : Z) : zth (l ++ [x]) (len l) = x.
Proof.
  unfold zth, len. rewrite Nat2Z.id. rewrite app_nth2 by lia.
  now rewrite Nat.sub_diag.
Qed.

(** Exchanging two positions permutes the list. *)
Lemma insert_Permutation_cons (l : list Z) (n : nat) (x y : Z) :
  l !! n = Some y -> y :: <[n := x]> l ≡ₚ x :: l.
Proof.
  revert n. induction l as [|z l IH]; intros [|n] H; simpl in *; try discriminate.
  - injection H as ->. apply Permutation_swap.
  - etransitivity; [apply Permutation_swap |].
    etransitivity; [apply Permutation_skip, (IH n H) |].
    apply Permutation_swap.
Qed.

Lemma insert_insert_Permutation (l : list Z) (i j : nat) (x y : Z) :
  l !! i = Some x -> l !! j = Some y -> <[j := x]> (<[i := y]> l) ≡ₚ l.
Proof.
  revert i j. induction l as [|z l IH]; intros [|i] [|j] Hi Hj; simpl in *;
    try discriminate.
  - injection Hi as ->. injection Hj as ->. reflexivity.
  - injection Hi as ->. now apply insert_Permutation_cons.
  - injection Hj as ->. now apply insert_Permutation_cons.
  - now rewrite (IH i j Hi Hj).
Qed.

Lemma lookup_zth (l : list Z) (i : Z) :
  0 <= i < len l -> l !! Z.to_nat i = Some (zth l i).
Proof.
  intros H. unfold zth. rewrite nth_lookup.
  destruct (lookup_lt_is_Some_2 l (Z.to_nat i)) as [v Hv];
    [unfold len in H; lia | now rewrite Hv].
Qed.

Lemma lswap_Permutation (l : list Z) (a b : Z) :
  0 <= a < len l -> 0 <= b < len l -> lswap l a b ≡ₚ l.
Proof.
  intros Ha Hb. unfold lswap.
  apply insert_insert_Permutation; now apply lookup_zth.
Qed.

Lemma swap_element_ok (l : list Z) (a b : Z) :
  0 <= a < len l -> 0 <= b < len l ->
  MaxHeap._swap_element a b l = (Ret tt, lswap l a b).
Proof.
  intros Ha Hb. unfold MaxHeap._swap_element, bind.
  rewrite (getitem_ok l b Hb), (getitem_ok l a Ha).
  rewrite (setitem_ok l a _ Ha).
  rewrite setitem_ok by now rewrite len_insert.
  reflexivity.
Qed.

(** ** Heap order *)

Lemma is_max_heap_from_0 (l : list Z) : is_max_heap l <-> max_heap_from 0 l.
Proof.
  unfold is_max_heap, max_heap_from. split; intros H i Hi.
  - intros _. specialize (H i Hi). lia.
  - assert (0 <= (i - 1) / 2) by (apply Z.div_pos; lia).
    specialize (H i Hi). lia.
Qed.

Lemma max_child_cases (l : list Z) (c last : Z) :
  2 * c + 1 <= last ->
  (max_child l c last = 2 * c + 1 \/
   (max_child l c last = 2 * c + 2 /\ 2 * c + 2 <= last)) /\
  zth l (2 * c + 1) <= zth l (max_child l c last) /\
  (2 * c + 2 <= last -> zth l (2 * c + 2) <= zth l (max_child l c last)).
Proof.
  intros H. unfold max_child.
  destruct (Z.ltb_spec (2 * c + 1) last);
    [destruct (Z.gtb_spec (zth l (2 * c + 2)) (zth l (2 * c + 1)))|]; lia.
Qed.

Lemma max_sink_down_stop (f : nat) (l : list Z) (c last : Z) :
  last < 2 * c + 1 ->
  MaxHeap._sink_down_loop f c (2 * c + 1) last l = (Ret tt, l).
Proof.
  intros H. destruct f; simpl;
    destruct (Z.leb_spec (2 * c + 1) last); try lia; reflexivity.
Qed.

Lemma max_sink_down_step (f : nat) (l : list Z) (c last : Z) :
  0 <= c -> 2 * c + 1 <= last -> last < len l ->
  MaxHeap._sink_down_loop (S f) c (2 * c + 1) last l =
    if zth l (max_child l c last) >? zth l c
    then MaxHeap._sink_down_loop f (max_child l c last)
           (2 * max_child l c last + 1) last (lswap l (max_child l c last) c)
    else (Ret tt, l).
Proof.
  intros Hc Hl Hlast. cbn [MaxHeap._sink_down_loop].
  destruct (Z.leb_spec (2 * c + 1) last); [|lia].
  unfold max_child, bind, ret.
  destruct (Z.ltb_spec (2 * c + 1) last).
  - replace (2 * c + 2 =? -1) with false by (symmetry; apply Z.eqb_neq; lia).
    cbn [negb]. rewrite !getitem_ok by lia.
    destruct (zth l (2 * c + 2) >? zth l (2 * c + 1));
      rewrite !getitem_ok by lia;
      match goal with |- context [?a >? ?b] => destruct (a >? b) end;
      try reflexivity; now rewrite swap_element_ok by lia.
  - cbn. rewrite !getitem_ok by lia.
    destruct (zth l (2 * c + 1) >? zth l c); try reflexivity.
    now rewrite swap_element_ok by lia.
Qed.

(** ** Sinking down restores the order below [k] *)

Lemma half_child (i c : Z) : (i - 1) / 2 = c <-> i = 2 * c + 1 \/ i = 2 * c + 2.
Proof. split; intros H; [|destruct H; subst i]; lia. Qed.

Lemma max_sink_down_inv_step (k c : Z) (l : list Z) :
  0 <= k <= c -> 2 * c + 1 <= len l - 1 ->
  sink_down_inv k c l ->
  zth l c < zth l (max_child l c (len l - 1)) ->
  sink_down_inv k (max_child l c (len l - 1))
    (lswap l (max_child l c (len l - 1)) c).
Proof.
  intros Hk Hlc [H1 H2] Hlt.
  destruct (max_child_cases l c (len l - 1) Hlc) as (Hm & Hleft & Hright).
  set (m := max_child l c (len l - 1)) in *.
  assert (Hmr : 0 <= m < len l) by lia.
  assert (Hcr : 0 <= c < len l) by lia.
  assert (Hmc : (m - 1) / 2 = c) by (apply half_child; lia).
  split.
  - rewrite len_lswap. intros i Hi Hki Hne.
    destruct (Z.eq_dec ((i - 1) / 2) c) as [Hp|Hp].
    + rewrite Hp. rewrite zth_lswap_r by lia.
      apply half_child in Hp.
      destruct (Z.eq_dec i m) as [->|Him].
      * rewrite zth_lswap_l by lia. lia.
      * rewrite zth_lswap_other by lia.
        destruct Hp as [->| ->]; [lia | apply Hright; lia].
    + assert (Hpm : (i - 1) / 2 <> m) by lia.
      assert (Him : i <> m) by congruence.
      rewrite (zth_lswap_other l m c ((i - 1) / 2)) by lia.
      destruct (Z.eq_dec i c) as [->|Hic].
      * rewrite zth_lswap_r by lia.
        assert (Hck : c <> k) by lia.
        apply (H2 Hck m); lia.
      * rewrite zth_lswap_other by lia. now apply H1.
  - rewrite len_lswap. intros Hmk i Hi Hp.
    rewrite Hmc. rewrite zth_lswap_r by lia.
    pose proof (proj1 (half_child i m) Hp) as Hchild.
    rewrite zth_lswap_other by lia.
    rewrite <- Hp. apply H1; lia.
Qed.

Lemma max_sink_down_inv_done (k c : Z) (l : list Z) :
  0 <= k <= c ->
  sink_down_inv k c l ->
  (2 * c + 1 <= len l - 1 -> zth l (max_child l c (len l - 1)) <= zth l c) ->
  max_heap_from k l.
Proof.
  intros Hk [H1 _] Hstop i Hi Hki.
  destruct (Z.eq_dec ((i - 1) / 2) c) as [Hp|Hp]; [|now apply H1].
  rewrite Hp. apply half_child in Hp.
  assert (Hlc : 2 * c + 1 <= len l - 1) by lia.
  specialize (Hstop Hlc).
  destruct (max_child_cases l c (len l - 1) Hlc) as (_ & Hleft & Hright).
  destruct Hp as [->| ->]; [lia|]. specialize (Hright ltac:(lia)). lia.
Qed.

Lemma max_sink_down_spec (f : nat) :
  forall (l : list Z) (c : Z),
    0 <= c -> len l - c <= Z.of_nat f ->
    exists l',
      MaxHeap._sink_down_loop f c (2 * c + 1) (len l - 1) l = (Ret tt, l') /\
      len l' = len l /\ l' ≡ₚ l /\
      (forall k, 0 <= k <= c -> sink_down_inv k c l -> max_heap_from k l').
Proof.
  induction f as [|f IH]; intros l c Hc Hf.
  - exists l. rewrite max_sink_down_stop by lia.
    repeat split; try reflexivity. intros k Hk Hinv.
    apply (max_sink_down_inv_done k c); auto; lia.
  - destruct (Z.le_gt_cases (2 * c + 1) (len l - 1)) as [Hlc|Hlc].
    + rewrite max_sink_down_step by lia.
      destruct (max_child_cases l c (len l - 1) Hlc) as (Hm & _).
      destruct (Z.gtb_spec (zth l (max_child l c (len l - 1))) (zth l c)) as [Hgt|Hle].
      * set (m := max_child l c (len l - 1)) in *.
        destruct (IH (lswap l m c) m) as (l' & Hrun & Hlen & Hperm & Hheap).
        -- lia.
        -- rewrite len_lswap. lia.
        -- rewrite len_lswap in Hrun, Hlen. exists l'. repeat split; auto.
           ++ rewrite Hperm. apply lswap_Permutation; lia.
           ++ intros k Hk Hinv. apply Hheap; [lia|].
              subst m. apply max_sink_down_inv_step; auto; lia.
      * exists l. repeat split; try reflexivity. intros k Hk Hinv.
        apply (max_sink_down_inv_done k c); auto.
    + exists l. rewrite max_sink_down_stop by lia.
      repeat split; try reflexivity. intros k Hk Hinv.
      apply (max_sink_down_inv_done k c); auto; lia.
Qed.

(** ** Heapify *)

Lemma range_down_nil (s : Z) : s < 0 -> range_down s (-1) = [].
Proof.
  intros H. unfold range_down.
  replace (Z.to_nat (s - -1)) with 0%nat by lia. reflexivity.
Qed.

Lemma range_down_cons (s : Z) :
  0 <= s -> range_down s (-1) = s :: range_down (s - 1) (-1).
Proof.
  intros H. unfold range_down.
  replace (Z.to_nat (s - -1)) with (S (Z.to_nat (s - 1 - -1))) by lia.
  cbn [seq map]. f_equal; [lia|].
  rewrite <- seq_shift, map_map. apply map_ext. intros k. lia.
Qed.

Lemma max_heapify_loop (F : nat) (j : nat) :
  forall (l : list Z),
    len l <= Z.of_nat F ->
    max_heap_from (Z.of_nat j) l ->
    exists l',
      for_each (range_down (Z.of_nat j - 1) (-1))
        (fun curr_index => m <- py_len ;; MaxHeap._sink_down F curr_index (m - 1)) l
      = (Ret tt, l') /\
      len l' = len l /\ l' ≡ₚ l /\ max_heap_from 0 l'.
Proof.
  induction j as [|j IH]; intros l HF Hheap.
  - exists l. rewrite range_down_nil by lia. repeat split; auto.
  - rewrite range_down_cons by lia.
    replace (Z.of_nat (S j) - 1) with (Z.of_nat j) in * by lia.
    cbn [for_each].
    destruct (max_sink_down_spec F l (Z.of_nat j))
      as (l1 & Hrun & Hlen & Hperm & Hheap1); [lia|lia|].
    rewrite (bind_Ret _ _ l l1 tt) by exact Hrun.
    destruct (IH l1) as (l' & Hrun' & Hlen' & Hperm' & Hheap'); [lia| |].
    + apply Hheap1; [lia|]. split; [|congruence].
      intros i Hi Hk Hne. apply Hheap; lia.
    + exists l'. rewrite Hrun'. repeat split; auto; try congruence.
      now rewrite Hperm'.
Qed.

Lemma max_heapify_spec (l : list Z) :
  exists l',
    MaxHeap._heapify l = (Ret tt, l') /\
    len l' = len l /\ l' ≡ₚ l /\ is_max_heap l'.
Proof.
  unfold MaxHeap._heapify, bind at 1, py_len at 1.
  pose proof (len_nonneg l) as Hn.
  destruct (max_heapify_loop (Z.to_nat (len l)) (Z.to_nat ((len l - 2) / 2 + 1)) l)
    as (l' & Hrun & Hlen & Hperm & Hheap).
  - lia.
  - intros i Hi Hk. lia.
  - replace (Z.of_nat (Z.to_nat ((len l - 2) / 2 + 1)) - 1)
      with ((len l - 2) / 2) in Hrun by lia.
    exists l'. repeat split; auto. now apply is_max_heap_from_0.
Qed.

(** ** Sinking up *)

Lemma max_sink_up_stop (f : nat) (l : list Z) (c : Z) :
  0 <= c < len l ->
  c = 0 \/ zth l c <= zth l ((c - 1) / 2) ->
  MaxHeap._sink_up_loop f c ((c - 1) / 2) l = (Ret tt, l).
Proof.
  intros Hc Hstop.
  destruct f; cbn [MaxHeap._sink_up_loop]; unfold bind, ret;
    (destruct (Z.gtb_spec c 0); [|reflexivity]);
    rewrite !getitem_ok by lia;
    (destruct (Z.ltb_spec (zth l ((c - 1) / 2)) (zth l c)); [lia|reflexivity]).
Qed.

Lemma max_sink_up_step (f : nat) (l : list Z) (c : Z) :
  1 <= c < len l ->
  zth l ((c - 1) / 2) < zth l c ->
  MaxHeap._sink_up_loop (S f) c ((c - 1) / 2) l =
  MaxHeap._sink_up_loop f ((c - 1) / 2) (((c - 1) / 2 - 1) / 2)
    (lswap l ((c - 1) / 2) c).
Proof.
  intros Hc Hlt. cbn [MaxHeap._sink_up_loop]. unfold bind at 1 2 3, ret.
  destruct (Z.gtb_spec c 0); [|lia].
  rewrite !getitem_ok by lia.
  destruct (Z.ltb_spec (zth l ((c - 1) / 2)) (zth l c)); [|lia].
  unfold bind at 1. now rewrite swap_element_ok by lia.
Qed.

Lemma max_sink_up_inv_step (c : Z) (l : list Z) :
  1 <= c < len l ->
  sink_up_inv c l ->
  zth l ((c - 1) / 2) < zth l c ->
  sink_up_inv ((c - 1) / 2) (lswap l ((c - 1) / 2) c).
Proof.
  intros Hc [H1 H2] Hlt.
  set (p := (c - 1) / 2) in *.
  assert (Hp : 0 <= p < c) by (subst p; lia).
  split; rewrite len_lswap.
  - intros i Hi Hip.
    destruct (Z.eq_dec i c) as [->|Hic].
    + fold p. rewrite zth_lswap_r, zth_lswap_l by lia. lia.
    + rewrite (zth_lswap_other l p c i) by lia.
      destruct (Z.eq_dec ((i - 1) / 2) c) as [E|E].
      * rewrite E, zth_lswap_r by lia. apply (H2 ltac:(lia) i); lia.
      * destruct (Z.eq_dec ((i - 1) / 2) p) as [E'|E'].
        -- rewrite E', zth_lswap_l by lia.
           specialize (H1 i Hi Hic). rewrite E' in H1. lia.
        -- rewrite zth_lswap_other by lia. now apply H1.
  - intros Hp1 i Hi E.
    assert (Hpp : 0 <= (p - 1) / 2 < p) by lia.
    rewrite (zth_lswap_other l p c ((p - 1) / 2)) by lia.
    pose proof (H1 p ltac:(lia) ltac:(lia)) as Hpar.
    destruct (Z.eq_dec i c) as [->|Hic].
    + rewrite zth_lswap_r by lia. exact Hpar.
    + rewrite zth_lswap_other by lia.
      specialize (H1 i Hi Hic). rewrite E in H1. lia.
Qed.

Lemma max_sink_up_spec (f : nat) :
  forall (l : list Z) (c : Z),
    0 <= c < len l -> c <= Z.of_nat f ->
    exists l',
      MaxHeap._sink_up_loop f c ((c - 1) / 2) l = (Ret tt, l') /\
      len l' = len l /\ l' ≡ₚ l /\
      (sink_up_inv c l -> is_max_heap l').
Proof.
  induction f as [|f IH]; intros l c Hc Hf.
  - exists l. rewrite max_sink_up_stop by lia. repeat split; auto.
    intros [H1 _] i Hi. specialize (H1 i Hi). lia.
  - destruct (Z.eq_dec c 0) as [->|Hc0];
      [|destruct (Z.le_gt_cases (zth l c) (zth l ((c - 1) / 2))) as [Hle|Hgt]].
    + exists l. rewrite max_sink_up_stop by lia. repeat split; auto.
      intros [H1 _] i Hi. specialize (H1 i Hi). lia.
    + exists l. rewrite max_sink_up_stop by lia. repeat split; auto.
      intros [H1 _] i Hi.
      destruct (Z.eq_dec i c) as [->|Hic]; [lia|].
      specialize (H1 i Hi Hic). lia.
    + rewrite max_sink_up_step by lia.
      destruct (IH (lswap l ((c - 1) / 2) c) ((c - 1) / 2))
        as (l' & Hrun & Hlen & Hperm & Hheap).
      * rewrite len_lswap. lia.
      * lia.
      * rewrite len_lswap in Hlen. exists l'. repeat split; auto.
        -- rewrite Hperm. apply lswap_Permutation; lia.
        -- intros Hinv. apply Hheap.
           apply max_sink_up_inv_step; auto; lia.
Qed.

(** ** push and pop of [max_heap.py] *)

Lemma max_push_spec (l : list Z) (x : Z) :
  exists l',
    MaxHeap.push x l = (Ret tt, l') /\
    len l' = len l + 1 /\ l' ≡ₚ x :: l /\
    (is_max_heap l -> is_max_heap l').
Proof.
  pose proof (len_nonneg l) as Hn.
  unfold MaxHeap.push, py_append, bind at 1.
  unfold bind at 1, py_len, MaxHeap._sink_up.
  rewrite len_app_one.
  destruct (max_sink_up_spec (Z.to_nat (len l + 1)) (l ++ [x]) (len l + 1 - 1))
    as (l' & Hrun & Hlen & Hperm & Hheap).
  - rewrite len_app_one. lia.
  - lia.
  - rewrite len_app_one in Hlen. exists l'. repeat split; auto.
    + rewrite Hperm. symmetry. apply Permutation_cons_append.
    + intros Hl. apply Hheap. replace (len l + 1 - 1) with (len l) by lia.
      split; rewrite len_app_one.
      * intros i Hi Hne. rewrite !zth_app_l by lia.
        specialize (Hl i ltac:(lia)). lia.
      * intros _ i Hi E. lia.
Qed.

Lemma len_cons (a : Z) (l : list Z) : len (a :: l) = len l + 1.
Proof. unfold len. cbn [length]. lia. Qed.

Lemma last_zth (l : list Z) :
  l <> [] -> List.last l 0 = zth l (len l - 1).
Proof.
  intros H. destruct (exists_last H) as (l0 & x & ->).
  rewrite last_last, len_app_one.
  replace (len l0 + 1 - 1) with (len l0) by lia.
  now rewrite zth_app_last.
Qed.

Lemma len_removelast (l : list Z) : l <> [] -> len (removelast l) = len l - 1.
Proof.
  intros H. destruct (exists_last H) as (l0 & x & ->).
  rewrite removelast_last, len_app_one. lia.
Qed.

Lemma zth_removelast (l : list Z) (i : Z) :
  0 <= i < len l - 1 -> zth (removelast l) i = zth l i.
Proof.
  intros H. destruct l as [|a t] using rev_ind; [unfold len in H; simpl in H; lia|].
  rewrite removelast_last. rewrite len_app_one in H. now rewrite zth_app_l by lia.
Qed.

Lemma removelast_Permutation (l : list Z) :
  l <> [] -> List.last l 0 :: removelast l ≡ₚ l.
Proof.
  intros H. rewrite (app_removelast_last 0 H) at 3.
  apply Permutation_cons_append.
Qed.

Lemma max_pop_spec (a : Z) (t : list Z) :
  exists l',
    MaxHeap.pop (a :: t) = (Ret a, l') /\
    len l' = len t /\ l' ≡ₚ t /\
    (is_max_heap (a :: t) -> is_max_heap l').
Proof.
  change (MaxHeap.pop (a :: t)) with
    ((n <- py_len ;;
      MaxHeap._swap_element 0 (n - 1) ;;;
      element_to_remove <- py_pop ;;
      m <- py_len ;;
      MaxHeap._sink_down (Z.to_nat m) 0 (m - 1) ;;;
      ret element_to_remove) (a :: t)).
  assert (Ha : zth (a :: t) 0 = a) by reflexivity.
  pose proof (len_cons a t) as Hlen_l. pose proof (len_nonneg t) as Hlen_t.
  remember (a :: t) as l eqn:El.
  assert (Hne : l <> []) by (subst l; discriminate).
  assert (Hn : 1 <= len l) by lia.
  rewrite (bind_Ret _ _ l l (len l)) by reflexivity.
  rewrite (bind_Ret _ _ l (lswap l 0 (len l - 1)) tt)
    by (apply swap_element_ok; lia).
  set (l1 := lswap l 0 (len l - 1)).
  assert (Hl1 : len l1 = len l) by apply len_lswap.
  assert (Hne1 : l1 <> []).
  { intros E. rewrite E in Hl1. unfold len in Hl1 at 1. simpl in Hl1. lia. }
  assert (Hlast : List.last l1 0 = a).
  { rewrite last_zth by auto. rewrite Hl1. subst l1.
    rewrite zth_lswap_r by lia. exact Ha. }
  assert (Hpop : py_pop l1 = (Ret a, removelast l1)).
  { unfold py_pop. rewrite <- Hlast. destruct l1; [congruence|reflexivity]. }
  rewrite (bind_Ret _ _ l1 _ a) by exact Hpop.
  set (l2 := removelast l1).
  assert (Hl2 : len l2 = len l - 1) by (subst l2; rewrite len_removelast; auto; lia).
  rewrite (bind_Ret _ _ l2 l2 (len l2)) by reflexivity.
  destruct (max_sink_down_spec (Z.to_nat (len l2)) l2 0)
    as (l' & Hrun & Hlen & Hperm & Hheap); [lia|lia|].
  rewrite (bind_Ret _ _ l2 l' tt) by exact Hrun.
  exists l'. unfold ret. repeat split.
  - lia.
  - rewrite Hperm. apply (Permutation_cons_inv (a := a)).
    rewrite <- El. subst l2. rewrite <- Hlast at 1.
    rewrite removelast_Permutation by auto.
    subst l1. apply lswap_Permutation; lia.
  - intros Hl. apply is_max_heap_from_0. apply Hheap; [lia|].
    split; [|congruence].
    intros i Hi _ Hp. rewrite Hl2 in Hi.
    assert (Hi' : 0 <= (i - 1) / 2 < i) by lia.
    subst l2. rewrite !zth_removelast by lia.
    subst l1. rewrite !zth_lswap_other by lia.
    specialize (Hl i ltac:(lia)). lia.
Qed.

(** ** [min_heap.py] is [max_heap.py] on the negated items *)

Lemma neg_involutive (l : list Z) : neg (neg l) = l.
Proof.
  unfold neg. rewrite map_map. rewrite <- (map_id l) at 2.
  apply map_ext. intros x. lia.
Qed.

Lemma len_neg (l : list Z) : len (neg l) = len l.
Proof. unfold len, neg. now rewrite length_map. Qed.

Lemma nth_neg (l : list Z) (n : nat) : nth n (neg l) 0 = - nth n l 0.
Proof. unfold neg. change 0 with (- 0) at 1. apply map_nth. Qed.

Lemma zth_neg (l : list Z) (i : Z) : zth (neg l) i = - zth l i.
Proof. apply nth_neg. Qed.

Lemma neg_insert (l : list Z) (n : nat) (x : Z) :
  neg (<[n := x]> l) = <[n := - x]> (neg l).
Proof.
  revert n. induction l as [|a l IH]; intros [|n]; simpl; auto.
  f_equal. apply IH.
Qed.

Lemma neg_Permutation (l l' : list Z) : l' ≡ₚ l -> neg l' ≡ₚ neg l.
Proof. apply Permutation_map. Qed.

Lemma is_min_heap_neg (l : list Z) : is_max_heap l <-> is_min_heap (neg l).
Proof.
  unfold is_max_heap, is_min_heap. rewrite len_neg.
  split; intros H i Hi; specialize (H i Hi); rewrite !zth_neg in *; lia.
Qed.

Lemma mirror_ret {A} (g : A -> A) (a : A) : mirror g (ret (g a)) (ret a).
Proof. intros l. reflexivity. Qed.

Lemma mirror_bind {A B} (g : A -> A) (h : B -> B)
      (m1 m2 : M A) (k1 k2 : A -> M B) :
  mirror g m1 m2 ->
  (forall a, mirror h (k1 (g a)) (k2 a)) ->
  mirror h (bind m1 k1) (bind m2 k2).
Proof.
  intros Hm Hk l. unfold bind. rewrite Hm.
  destruct (m2 l) as [[a|e|] l']; cbn; [apply Hk|reflexivity|reflexivity].
Qed.

Lemma mirror_py_len : mirror id py_len py_len.
Proof. intros l. unfold py_len, dual. cbn. now rewrite len_neg. Qed.

Lemma mirror_getitem (i : Z) : mirror Z.opp (getitem i) (getitem i).
Proof.
  intros l. unfold getitem. rewrite len_neg.
  destruct (in_range (len l) (norm_index (len l) i));
    unfold dual; cbn [fst snd]; [|reflexivity].
  now rewrite nth_neg.
Qed.

Lemma mirror_setitem (i x : Z) : mirror id (setitem i (- x)) (setitem i x).
Proof.
  intros l. unfold setitem. rewrite len_neg.
  destruct (in_range (len l) (norm_index (len l) i));
    unfold dual; cbn [fst snd]; [|reflexivity].
  now rewrite neg_insert.
Qed.

Lemma mirror_py_append (x : Z) : mirror id (py_append (- x)) (py_append x).
Proof. intros l. unfold py_append, dual, neg. cbn. now rewrite map_app. Qed.

Lemma mirror_py_pop : mirror Z.opp py_pop py_pop.
Proof.
  intros l. destruct l as [|a t] using rev_ind; [reflexivity|].
  unfold py_pop, neg. rewrite map_app. cbn [map].
  destruct (t ++ [a]) eqn:E1; [now destruct t|].
  destruct (map Z.opp t ++ [- a]) eqn:E2; [now destruct t|].
  rewrite <- E1, <- E2. rewrite !last_last, !removelast_last. reflexivity.
Qed.

Lemma mirror_swap_element (a b : Z) :
  mirror id (MinHeap._swap_element a b) (MaxHeap._swap_element a b).
Proof.
  unfold MinHeap._swap_element, MaxHeap._swap_element.
  apply (mirror_bind Z.opp); [apply mirror_getitem|]. intros vb.
  apply (mirror_bind Z.opp); [apply mirror_getitem|]. intros va.
  apply (mirror_bind id); [apply mirror_setitem|]. intros _.
  apply mirror_setitem.
Qed.

Lemma opp_ltb_gtb (r l : Z) : (- r <? - l) = (r >? l).
Proof. destruct (Z.ltb_spec (- r) (- l)), (Z.gtb_spec r l); lia. Qed.

Lemma opp_gtb_ltb (r l : Z) : (- r >? - l) = (r <? l).
Proof. destruct (Z.gtb_spec (- r) (- l)), (Z.ltb_spec r l); lia. Qed.

Lemma mirror_sink_down_loop (f : nat) :
  forall c lc last,
    mirror id (MinHeap._sink_down_loop f c lc last)
              (MaxHeap._sink_down_loop f c lc last).
Proof.
  induction f as [|f IH]; intros c lc last;
    cbn [MinHeap._sink_down_loop MaxHeap._sink_down_loop];
    (destruct (lc <=? last); [|apply (mirror_ret id tt)]).
  - intros l. reflexivity.
  - apply (mirror_bind id).
    + destruct (negb _); [|apply (mirror_ret id)].
      apply (mirror_bind Z.opp); [apply mirror_getitem|]. intros r.
      apply (mirror_bind Z.opp); [apply mirror_getitem|]. intros l.
      rewrite opp_ltb_gtb. apply (mirror_ret id).
    + intros idx. unfold id.
      apply (mirror_bind Z.opp); [apply mirror_getitem|]. intros s.
      apply (mirror_bind Z.opp); [apply mirror_getitem|]. intros cv.
      rewrite opp_ltb_gtb. destruct (s >? cv); [|apply (mirror_ret id tt)].
      apply (mirror_bind id); [apply mirror_swap_element|]. intros _.
      apply IH.
Qed.

Lemma mirror_sink_up_loop (f : nat) :
  forall c p,
    mirror id (MinHeap._sink_up_loop f c p) (MaxHeap._sink_up_loop f c p).
Proof.
  induction f as [|f IH]; intros c p;
    cbn [MinHeap._sink_up_loop MaxHeap._sink_up_loop];
    apply (mirror_bind id).
  1, 3: destruct (c >? 0); [|apply (mirror_ret id)];
    (apply (mirror_bind Z.opp); [apply mirror_getitem|]); intros pv;
    (apply (mirror_bind Z.opp); [apply mirror_getitem|]); intros cv;
    rewrite opp_gtb_ltb; apply (mirror_ret id).
  - intros [|]; unfold id; [intros l; reflexivity|apply (mirror_ret id tt)].
  - intros [|]; unfold id; [|apply (mirror_ret id tt)].
    apply (mirror_bind id); [apply mirror_swap_element|]. intros _. apply IH.
Qed.

Lemma mirror_for_each (xs : list Z) (b1 b2 : Z -> M unit) :
  (forall x, mirror id (b1 x) (b2 x)) ->
  mirror id (for_each xs b1) (for_each xs b2).
Proof.
  intros Hb. induction xs as [|x xs IH]; cbn [for_each].
  - apply (mirror_ret id tt).
  - apply (mirror_bind id); [apply Hb|]. intros _. apply IH.
Qed.

Lemma mirror_heapify : mirror id MinHeap._heapify MaxHeap._heapify.
Proof.
  unfold MinHeap._heapify, MaxHeap._heapify.
  apply (mirror_bind id); [apply mirror_py_len|]. intros n. unfold id.
  apply mirror_for_each. intros c.
  apply (mirror_bind id); [apply mirror_py_len|]. intros m. unfold id.
  apply mirror_sink_down_loop.
Qed.

Lemma mirror_peak : mirror Z.opp MinHeap.peak MaxHeap.peak.
Proof. apply mirror_getitem. Qed.

Lemma mirror_push (x : Z) : mirror id (MinHeap.push (- x)) (MaxHeap.push x).
Proof.
  unfold MinHeap.push, MaxHeap.push.
  apply (mirror_bind id); [apply mirror_py_append|]. intros _.
  apply (mirror_bind id); [apply mirror_py_len|]. intros n. unfold id.
  apply mirror_sink_up_loop.
Qed.

(** [pop] mirrors on a non-empty list only: on the empty list both
    classes return the same [-1]. *)
Lemma mirror_pop_cons (a : Z) (t : list Z) :
  MinHeap.pop (neg (a :: t)) = dual Z.opp (MaxHeap.pop (a :: t)).
Proof.
  change (MinHeap.pop (neg (a :: t))) with
    ((n <- py_len ;;
      MinHeap._swap_element 0 (n - 1) ;;;
      element_to_remove <- py_pop ;;
      m <- py_len ;;
      MinHeap._sink_down (Z.to_nat m) 0 (m - 1) ;;;
      ret element_to_remove) (neg (a :: t))).
  change (MaxHeap.pop (a :: t)) with
    ((n <- py_len ;;
      MaxHeap._swap_element 0 (n - 1) ;;;
      element_to_remove <- py_pop ;;
      m <- py_len ;;
      MaxHeap._sink_down (Z.to_nat m) 0 (m - 1) ;;;
      ret element_to_remove) (a :: t)).
  generalize (a :: t). change (mirror Z.opp
    (n <- py_len ;;
      MinHeap._swap_element 0 (n - 1) ;;;
      element_to_remove <- py_pop ;;
      m <- py_len ;;
      MinHeap._sink_down (Z.to_nat m) 0 (m - 1) ;;;
      ret element_to_remove)
    (n <- py_len ;;
      MaxHeap._swap_element 0 (n - 1) ;;;
      element_to_remove <- py_pop ;;
      m <- py_len ;;
      MaxHeap._sink_down (Z.to_nat m) 0 (m - 1) ;;;
      ret element_to_remove)).
  apply (mirror_bind id); [apply mirror_py_len|]. intros n. unfold id.
  apply (mirror_bind id); [apply mirror_swap_element|]. intros _.
  apply (mirror_bind Z.opp); [apply mirror_py_pop|]. intros e.
  apply (mirror_bind id); [apply mirror_py_len|]. intros m. unfold id.
  apply (mirror_bind id); [apply mirror_sink_down_loop|]. intros _.
  apply mirror_ret.
Qed.

Lemma is_max_heap_neg (l : list Z) : is_min_heap l <-> is_max_heap (neg l).
Proof. rewrite (is_min_heap_neg (neg l)), neg_involutive. reflexivity. Qed.

Lemma neg_Permutation_inv (l l' : list Z) : neg l' ≡ₚ neg l -> l' ≡ₚ l.
Proof.
  intros H. apply neg_Permutation in H. now rewrite !neg_involutive in H.
Qed.

(** ** [min_heap.py], through the mirror *)

Lemma min_heapify_spec (l : list Z) :
  exists l',
    MinHeap._heapify l = (Ret tt, l') /\
    len l' = len l /\ l' ≡ₚ l /\ is_min_heap l'.
Proof.
  destruct (max_heapify_spec (neg l)) as (l1 & Hrun & Hlen & Hperm & Hheap).
  exists (neg l1).
  rewrite <- (neg_involutive l) at 1. rewrite mirror_heapify, Hrun.
  rewrite len_neg in *. repeat split; auto.
  - apply neg_Permutation_inv. now rewrite neg_involutive.
  - now apply is_min_heap_neg.
Qed.

Lemma min_push_spec (l : list Z) (x : Z) :
  exists l',
    MinHeap.push x l = (Ret tt, l') /\
    len l' = len l + 1 /\ l' ≡ₚ x :: l /\
    (is_min_heap l -> is_min_heap l').
Proof.
  destruct (max_push_spec (neg l) (- x)) as (l1 & Hrun & Hlen & Hperm & Hheap).
  exists (neg l1).
  rewrite <- (neg_involutive l) at 1. rewrite <- (Z.opp_involutive x) at 1.
  rewrite mirror_push, Hrun.
  rewrite len_neg in *. repeat split; auto.
  - apply neg_Permutation in Hperm. cbn [neg map] in Hperm.
    fold (neg (neg l)) in Hperm.
    now rewrite neg_involutive, Z.opp_involutive in Hperm.
  - intros Hl. apply is_min_heap_neg, Hheap. now apply is_max_heap_neg.
Qed.

Lemma min_pop_spec (a : Z) (t : list Z) :
  exists l',
    MinHeap.pop (a :: t) = (Ret a, l') /\
    len l' = len t /\ l' ≡ₚ t /\
    (is_min_heap (a :: t) -> is_min_heap l').
Proof.
  destruct (max_pop_spec (- a) (neg t)) as (l1 & Hrun & Hlen & Hperm & Hheap).
  exists (neg l1).
  assert (E : a :: t = neg (- a :: neg t)).
  { cbn [neg map]. fold (neg (neg t)).
    now rewrite neg_involutive, Z.opp_involutive. }
  rewrite E at 1. rewrite mirror_pop_cons, Hrun. unfold dual. cbn [fst snd].
  rewrite Z.opp_involutive, len_neg in *. repeat split; auto.
  - apply neg_Permutation_inv. now rewrite neg_involutive.
  - intros Hl. apply is_min_heap_neg, Hheap. rewrite E in Hl.
    now apply is_min_heap_neg.
Qed.

(** ** Both classes at once *)

Lemma heap_init_spec (o : heap_class) (l : list Z) :
  exists l',
    heap_init o l = (Ret tt, l') /\
    len l' = len l /\ l' ≡ₚ l /\ is_heap o l'.
Proof. destruct o; [apply max_heapify_spec | apply min_heapify_spec]. Qed.

Lemma heap_push_spec (o : heap_class) (l : list Z) (x : Z) :
  exists l',
    heap_push o x l = (Ret tt, l') /\
    len l' = len l + 1 /\ l' ≡ₚ x :: l /\
    (is_heap o l -> is_heap o l').
Proof. destruct o; [apply max_push_spec | apply min_push_spec]. Qed.

Lemma heap_pop_spec (o : heap_class) (a : Z) (t : list Z) :
  exists l',
    heap_pop o (a :: t) = (Ret a, l') /\
    len l' = len t /\ l' ≡ₚ t /\
    (is_heap o (a :: t) -> is_heap o l').
Proof. destruct o; [apply max_pop_spec | apply min_pop_spec]. Qed.

Lemma heap_pop_nil (o : heap_class) : heap_pop o [] = (Ret (-1), []).
Proof. now destruct o. Qed.

Lemma heap_peak_nil (o : heap_class) : heap_peak o [] = (Raise IndexError, []).
Proof. now destruct o. Qed.

Lemma heap_peak_cons (o : heap_class) (a : Z) (t : list Z) :
  heap_peak o (a :: t) = (Ret a, a :: t).
Proof.
  pose proof (len_nonneg t). 
  destruct o; cbn [heap_peak]; unfold MaxHeap.peak, MinHeap.peak;
    rewrite getitem_ok by (rewrite len_cons; lia); reflexivity.
Qed.

Lemma is_heap_nil (o : heap_class) : is_heap o [].
Proof. destruct o; intros i Hi; unfold len in Hi; simpl in Hi; lia. Qed.

(** The root of a heap stands above every item. *)
Lemma root_above_index (o : heap_class) (l : list Z) :
  is_heap o l ->
  forall n : nat, forall i, 0 <= i <= Z.of_nat n -> i < len l ->
    above o (zth l 0) (zth l i).
Proof.
  intros Hl. induction n as [|n IH]; intros i Hi Hlen.
  - replace i with 0 by lia. destruct o; cbn [above]; lia.
  - destruct (Z.eq_dec i 0) as [->|Hi0].
    + destruct o; cbn [above]; lia.
    + specialize (IH ((i - 1) / 2) ltac:(lia) ltac:(lia)).
      destruct o; cbn [above is_heap] in *;
        specialize (Hl i ltac:(lia)); lia.
Qed.

Lemma In_zth (l : list Z) (y : Z) :
  In y l -> exists i, 0 <= i < len l /\ zth l i = y.
Proof.
  intros H. destruct (In_nth l y 0 H) as (n & Hn & E).
  exists (Z.of_nat n). unfold zth, len. rewrite Nat2Z.id. split; [lia|auto].
Qed.

Lemma root_above (o : heap_class) (a : Z) (t : list Z) :
  is_heap o (a :: t) -> forall y, In y (a :: t) -> above o a y.
Proof.
  intros Hl y Hy. destruct (In_zth _ _ Hy) as (i & Hi & <-).
  change a with (zth (a :: t) 0) at 1.
  apply (root_above_index o _ Hl (Z.to_nat i)); lia.
Qed.

(** ** Heapify on a heap *)

Lemma max_sink_down_id (f : nat) (l : list Z) (c : Z) :
  is_max_heap l -> 0 <= c ->
  MaxHeap._sink_down_loop (S f) c (2 * c + 1) (len l - 1) l = (Ret tt, l).
Proof.
  intros Hl Hc.
  destruct (Z.le_gt_cases (2 * c + 1) (len l - 1)) as [Hlc|Hlc];
    [|now apply max_sink_down_stop].
  rewrite max_sink_down_step by lia.
  destruct (max_child_cases l c (len l - 1) Hlc) as (Hm & _).
  set (m := max_child l c (len l - 1)) in *.
  assert (Hp : (m - 1) / 2 = c) by (apply half_child; lia).
  specialize (Hl m ltac:(lia)). rewrite Hp in Hl.
  destruct (Z.gtb_spec (zth l m) (zth l c)); [lia|reflexivity].
Qed.

Lemma max_heapify_loop_id (F : nat) (j : nat) (l : list Z) :
  is_max_heap l ->
  for_each (range_down (Z.of_nat j - 1) (-1))
    (fun curr_index => m <- py_len ;; MaxHeap._sink_down (S F) curr_index (m - 1)) l
  = (Ret tt, l).
Proof.
  intros Hl. induction j as [|j IH].
  - now rewrite range_down_nil by lia.
  - rewrite range_down_cons by lia.
    replace (Z.of_nat (S j) - 1) with (Z.of_nat j) in * by lia.
    cbn [for_each].
    rewrite (bind_Ret _ _ l l tt); [exact IH|].
    rewrite (bind_Ret _ _ l l (len l)) by reflexivity.
    apply max_sink_down_id; [auto|lia].
Qed.

Lemma max_heapify_id (l : list Z) :
  is_max_heap l -> MaxHeap._heapify l = (Ret tt, l).
Proof.
  intros Hl. pose proof (len_nonneg l) as Hn.
  unfold MaxHeap._heapify. rewrite (bind_Ret _ _ l l (len l)) by reflexivity.
  destruct (Z.lt_ge_cases (len l) 2) as [Hs|Hs].
  - rewrite range_down_nil by lia. reflexivity.
  - replace (Z.to_nat (len l)) with (S (Z.to_nat (len l - 1))) by lia.
    replace ((len l - 2) / 2) with (Z.of_nat (Z.to_nat ((len l - 2) / 2 + 1)) - 1) by lia.
    now apply max_heapify_loop_id.
Qed.

Lemma min_heapify_id (l : list Z) :
  is_min_heap l -> MinHeap._heapify l = (Ret tt, l).
Proof.
  intros Hl. rewrite <- (neg_involutive l) at 1.
  rewrite mirror_heapify, max_heapify_id by now apply is_max_heap_neg.
  unfold dual. cbn [fst snd]. now rewrite neg_involutive.
Qed.

(** ** Checking the heap property of a given list *)

Lemma is_heapb_sound (o : heap_class) (l : list Z) :
  is_heapb o l = true -> is_heap o l.
Proof.
  unfold is_heapb. rewrite forallb_forall. intros H.
  assert (Hi : forall i, 1 <= i < len l -> In (Z.to_nat i) (seq 1 (length l - 1))).
  { intros i Hi. apply in_seq. unfold len in Hi. lia. }
  destruct o; intros i Hr; specialize (H _ (Hi i Hr)); cbn beta zeta in H;
    rewrite Z2Nat.id in H by lia; lia.
Qed.

(** ** Draining a heap *)

Lemma drain_spec (o : heap_class) (n : nat) :
  forall l : list Z,
    (length l <= n)%nat -> is_heap o l ->
    exists out,
      drain o n l = (Ret out, []) /\ out ≡ₚ l /\ StronglySorted (above o) out.
Proof.
  induction n as [|n IH]; intros [|a t] Hn Hl; cbn [length] in Hn; try lia.
  - exists []. repeat split; auto. constructor.
  - exists []. repeat split; auto. constructor.
  - destruct (heap_pop_spec o a t) as (l' & Hpop & Hlen & Hperm & Hheap).
    destruct (IH l') as (out & Hrun & Hperm' & Hsorted);
      [unfold len in Hlen; lia | auto |].
    exists (a :: out). cbn [drain].
    rewrite (bind_Ret _ _ _ _ _ Hpop), (bind_Ret _ _ _ _ _ Hrun).
    repeat split.
    + now rewrite Hperm', Hperm.
    + constructor; [exact Hsorted|].
      apply List.Forall_forall. intros y Hy.
      apply (root_above o a t Hl). right.
      apply (Permutation_in y Hperm), (Permutation_in y Hperm'), Hy.
Qed.

(** ** Sequences of calls: sizes and the mirror *)

Lemma pops_covered_push (n0 : nat) (x : Z) (cs : list op) :
  pops_covered n0 (Push x :: cs) -> pops_covered (S n0) cs.
Proof.
  intros H n. specialize (H (S n)). unfold pops, pushes in *.
  cbn in H. lia.
Qed.

Lemma pops_covered_pop (n0 : nat) (cs : list op) :
  pops_covered n0 (Pop :: cs) ->
  exists n1, n0 = S n1 /\ pops_covered n1 cs.
Proof.
  intros H. pose proof (H 1%nat) as H1. unfold pops, pushes in H1.
  rewrite firstn_cons, firstn_O in H1. cbn in H1.
  destruct n0 as [|n1]; [lia|]. exists n1. split; [reflexivity|].
  intros n. specialize (H (S n)). unfold pops, pushes in *.
  cbn in H. lia.
Qed.

Lemma pops_covered_peak (n0 : nat) (cs : list op) :
  pops_covered n0 (Peak :: cs) -> pops_covered n0 cs.
Proof.
  intros H n. specialize (H (S n)). unfold pops, pushes in *.
  cbn in H. lia.
Qed.

Lemma length_len (l l' : list Z) : len l' = len l -> length l' = length l.
Proof. unfold len. lia. Qed.

Lemma call_push_Ret (o : heap_class) (x : Z) (l l' : list Z) :
  heap_push o x l = (Ret tt, l') -> call o (Push x) l = (Ret None, l').
Proof. intros H. cbn [call]. now rewrite (bind_Ret _ _ _ _ _ H). Qed.

Lemma call_pop_Ret (o : heap_class) (v : Z) (l l' : list Z) :
  heap_pop o l = (Ret v, l') -> call o Pop l = (Ret (Some v), l').
Proof. intros H. cbn [call]. now rewrite (bind_Ret _ _ _ _ _ H). Qed.

Lemma call_peak_Ret (o : heap_class) (v : Z) (l l' : list Z) :
  heap_peak o l = (Ret v, l') -> call o Peak l = (Ret (Some v), l').
Proof. intros H. cbn [call]. now rewrite (bind_Ret _ _ _ _ _ H). Qed.

Lemma run_cons_Ret (o : heap_class) (c : op) (cs : list op)
      (l l1 l' : list Z) (v : option Z) (vs : list (option Z)) :
  call o c l = (Ret v, l1) -> run o cs l1 = (Ret vs, l') ->
  run o (c :: cs) l = (Ret (v :: vs), l').
Proof.
  intros Hc Hr. cbn [run].
  now rewrite (bind_Ret _ _ _ _ _ Hc), (bind_Ret _ _ _ _ _ Hr).
Qed.

Lemma run_size (o : heap_class) (cs : list op) :
  forall l : list Z,
    Forall (fun c => is_peak c = false) cs ->
    pops_covered (length l) cs ->
    exists outs l',
      run o cs l = (Ret outs, l') /\
      (length l' + pops cs = length l + pushes cs)%nat.
Proof.
  induction cs as [|c cs IH]; intros l Hnp Hcov.
  - exists [], l. split; [reflexivity|]. unfold pops, pushes. cbn. lia.
  - inversion Hnp as [|c' cs' Hc Hcs]; subst.
    destruct c as [x| |]; [| |discriminate].
    + destruct (heap_push_spec o l x) as (l1 & Hpush & Hlen & _).
      assert (E : length l1 = S (length l)) by (unfold len in Hlen; lia).
      apply pops_covered_push in Hcov. rewrite <- E in Hcov.
      destruct (IH l1 Hcs Hcov) as (outs & l' & Hrun & Hsz).
      exists (None :: outs), l'.
      rewrite (run_cons_Ret _ _ _ _ _ _ _ _ (call_push_Ret _ _ _ _ Hpush) Hrun).
      split; [reflexivity|].
      unfold pops, pushes in *. cbn. lia.
    + destruct (pops_covered_pop _ _ Hcov) as (n1 & En & Hcov').
      destruct l as [|a t]; [discriminate|]. injection En as En.
      destruct (heap_pop_spec o a t) as (l1 & Hpop & Hlen & _).
      assert (E : length l1 = n1) by (unfold len in Hlen; lia).
      rewrite <- E in Hcov'.
      destruct (IH l1 Hcs Hcov') as (outs & l' & Hrun & Hsz).
      exists (Some a :: outs), l'.
      rewrite (run_cons_Ret _ _ _ _ _ _ _ _ (call_pop_Ret _ _ _ _ Hpop) Hrun).
      split; [reflexivity|].
      unfold pops, pushes in *. cbn. lia.
Qed.

Lemma mirror_call_push (x : Z) :
  mirror neg_value (call Min (Push (- x))) (call Max (Push x)).
Proof.
  cbn [call heap_push].
  apply (mirror_bind id); [apply mirror_push|]. intros _.
  apply (mirror_ret neg_value None).
Qed.

Lemma mirror_call_peak : mirror neg_value (call Min Peak) (call Max Peak).
Proof.
  cbn [call heap_peak].
  apply (mirror_bind Z.opp); [apply mirror_peak|]. intros v.
  apply (mirror_ret neg_value (Some v)).
Qed.

Lemma mirror_call_pop_cons (a : Z) (t : list Z) :
  call Min Pop (neg (a :: t)) = dual neg_value (call Max Pop (a :: t)).
Proof.
  cbn [call heap_pop]. unfold bind. rewrite mirror_pop_cons.
  destruct (MaxHeap.pop (a :: t)) as [[v|e|] l']; reflexivity.
Qed.

Lemma run_mirror_step (c c' : op) (cs cs' : list op) (l : list Z) :
  call Min c' (neg l) = dual neg_value (call Max c l) ->
  (forall v l1, call Max c l = (Ret v, l1) ->
     run Min cs' (neg l1) = dual (map neg_value) (run Max cs l1)) ->
  run Min (c' :: cs') (neg l) = dual (map neg_value) (run Max (c :: cs) l).
Proof.
  intros Hcall Hrest. cbn [run]. unfold bind at 1 3. rewrite Hcall.
  destruct (call Max c l) as [[v|e|] l1] eqn:E; try reflexivity.
  unfold dual at 1. cbn [fst snd]. unfold bind.
  rewrite (Hrest v l1 eq_refl).
  destruct (run Max cs l1) as [[vs|e|] l2]; reflexivity.
Qed.

Lemma run_mirror (cs : list op) :
  forall l : list Z,
    pops_covered (length l) cs ->
    run Min (map neg_op cs) (neg l) = dual (map neg_value) (run Max cs l).
Proof.
  induction cs as [|c cs IH]; intros l Hcov; [reflexivity|].
  destruct c as [x| |]; cbn [map neg_op].
  - apply run_mirror_step; [apply mirror_call_push|].
    intros v l1 Hc. apply IH.
    destruct (heap_push_spec Max l x) as (l2 & Hpush & Hlen & _).
    rewrite (call_push_Ret _ _ _ _ Hpush) in Hc. injection Hc as _ <-.
    apply pops_covered_push in Hcov.
    replace (length l2) with (S (length l)) by (unfold len in Hlen; lia).
    exact Hcov.
  - destruct (pops_covered_pop _ _ Hcov) as (n1 & En & Hcov').
    destruct l as [|a t]; [discriminate|]. injection En as En.
    apply run_mirror_step; [apply mirror_call_pop_cons|].
    intros v l1 Hc. apply IH.
    destruct (heap_pop_spec Max a t) as (l2 & Hpop & Hlen & _).
    rewrite (call_pop_Ret _ _ _ _ Hpop) in Hc. injection Hc as _ <-.
    replace (length l2) with n1 by (unfold len in Hlen; lia).
    exact Hcov'.
  - apply run_mirror_step; [apply mirror_call_peak|].
    intros v l1 Hc. apply IH. apply pops_covered_peak in Hcov.
    destruct l as [|a t].
    + cbn [call] in Hc. unfold bind in Hc.
      rewrite (heap_peak_nil Max) in Hc. discriminate.
    + rewrite (call_peak_Ret _ _ _ _ (heap_peak_cons Max a t)) in Hc.
      injection Hc as _ <-. exact Hcov.
Qed.

Lemma dual_involutive {A} (g : A -> A) (r : outcome A * list Z) :
  (forall a, g (g a) = a) -> dual g (dual g r) = r.
Proof.
  intros Hg. destruct r as [[a|e|] l]; unfold dual; cbn [fst snd];
    rewrite neg_involutive, ?Hg; reflexivity.
Qed.

Lemma neg_value_involutive (v : option Z) : neg_value (neg_value v) = v.
Proof. destruct v as [x|]; cbn; [now rewrite Z.opp_involutive|reflexivity]. Qed.

Lemma map_neg_value_involutive (vs : list (option Z)) :
  map neg_value (map neg_value vs) = vs.
Proof.
  rewrite map_map. rewrite <- (map_id vs) at 2.
  apply map_ext, neg_value_involutive.
Qed.

Lemma map_neg_op_involutive (cs : list op) : map neg_op (map neg_op cs) = cs.
Proof.
  rewrite map_map. rewrite <- (map_id cs) at 2.
  apply map_ext. intros [x| |]; cbn; [now rewrite Z.opp_involutive| |]; reflexivity.
Qed.

Lemma pops_covered_neg (n0 : nat) (cs : list op) :
  pops_covered n0 cs -> pops_covered n0 (map neg_op cs).
Proof.
  assert (E : forall ds, pops (map neg_op ds) = pops ds /\
                         pushes (map neg_op ds) = pushes ds).
  { induction ds as [|[x| |] ds [IH1 IH2]]; unfold pops, pushes in *; cbn; lia. }
  intros H n. specialize (H n). rewrite firstn_map.
  destruct (E (take n cs)) as [-> ->]. exact H.
Qed.

Lemma session_mirror (xs : list Z) (cs : list op) :
  pops_covered (length xs) cs ->
  session Min (map neg_op cs) (neg xs) = dual (map neg_value) (session Max cs xs).
Proof.
  intros Hcov. unfold session.
  destruct (heap_init_spec Max xs) as (l & Hinit & Hlen & _).
  rewrite (bind_Ret _ _ _ _ _ Hinit).
  assert (Hmin : heap_init Min (neg xs) = (Ret tt, neg l)).
  { cbn [heap_init] in *. unfold MinHeap.init, MaxHeap.init in *.
    now rewrite mirror_heapify, Hinit. }
  rewrite (bind_Ret _ _ _ _ _ Hmin).
  apply run_mirror. now rewrite (length_len _ _ Hlen).
Qed.

Lemma heap_sink_down_id (o : heap_class) (l : list Z) (c : Z) :
  is_heap o l -> 0 <= c ->
  heap_sink_down o (Z.to_nat (len l)) c (len l - 1) l = (Ret tt, l).
Proof.
  intros Hl Hc. pose proof (len_nonneg l) as Hn.
  assert (Hmax : forall l', is_max_heap l' ->
            MaxHeap._sink_down (Z.to_nat (len l')) c (len l' - 1) l' = (Ret tt, l')).
  { intros l' Hl'. pose proof (len_nonneg l'). unfold MaxHeap._sink_down.
    destruct (Z.eq_dec (len l') 0) as [E|E].
    - apply max_sink_down_stop. lia.
    - replace (Z.to_nat (len l')) with (S (Z.to_nat (len l' - 1))) by lia.
      now apply max_sink_down_id. }
  destruct o; cbn [heap_sink_down is_heap] in *; [now apply Hmax|].
  unfold MinHeap._sink_down. rewrite <- (neg_involutive l) at 3.
  rewrite mirror_sink_down_loop. rewrite <- (len_neg l).
  fold (MaxHeap._sink_down (Z.to_nat (len (neg l))) c (len (neg l) - 1)).
  rewrite Hmax by now apply is_max_heap_neg.
  unfold dual. cbn [fst snd]. now rewrite neg_involutive.
Qed.

(** * The claims *)

(** C1. For both classes the storage satisfies the heap property
    (every non-root item [i] compares with its parent [(i-1)//2]: parent
    [>=] item in a MaxHeap, parent [<=] item in a MinHeap) after
    construction from any array, after every push on a heap, and after
    every pop on a non-empty heap; each of these calls returns. *)
Theorem heap_property_maintained (o : heap_class) (xs l : list Z) (x : Z) :
  (exists l', heap_init o xs = (Ret tt, l') /\ is_heap o l') /\
  (is_heap o l ->
   (exists l', heap_push o x l = (Ret tt, l') /\ is_heap o l') /\
   (l <> [] -> exists v l', heap_pop o l = (Ret v, l') /\ is_heap o l')).
Proof.
  split.
  - destruct (heap_init_spec o xs) as (l' & Hrun & _ & _ & Hheap). eauto.
  - intros Hl. split.
    + destruct (heap_push_spec o l x) as (l' & Hrun & _ & _ & Hheap). eauto.
    + intros Hne. destruct l as [|a t]; [congruence|].
      destruct (heap_pop_spec o a t) as (l' & Hrun & _ & _ & Hheap). eauto.
Qed.

Lemma heap_property_maintained_witness :
  is_heap Max [12; 11; 5; 10] /\
  (exists l', heap_push Max 100 [12; 11; 5; 10] = (Ret tt, l') /\ is_heap Max l') /\
  (exists v l', heap_pop Max [12; 11; 5; 10] = (Ret v, l') /\ is_heap Max l').
Proof.
  assert (H : is_heap Max [12; 11; 5; 10]) by (apply is_heapb_sound; reflexivity).
  destruct (heap_property_maintained Max [12; 10; 5; 11] [12; 11; 5; 10] 100)
    as [_ Hstep].
  destruct (Hstep H) as [Hpush Hpop].
  split; [exact H|]. split; [exact Hpush|]. apply Hpop. discriminate.
Defined.

(** C2, amended. On an empty heap [peak] raises [IndexError] and [pop]
    returns the value [-1] without raising; neither changes the (empty)
    storage. *)
Theorem empty_heap_peak_raises_pop_returns_sentinel (o : heap_class) :
  heap_peak o [] = (Raise IndexError, []) /\
  heap_pop o [] = (Ret (-1), []).
Proof. split; [apply heap_peak_nil | apply heap_pop_nil]. Qed.

(** C2 as stated fails: [pop] on an empty heap signals no error, and what
    it returns and leaves is what popping the heap [[-1]] returns and
    leaves. *)
Lemma empty_pop_signals_no_error :
  (forall e l, heap_pop Max [] <> (Raise e, l)) /\
  (forall e l, heap_pop Min [] <> (Raise e, l)) /\
  heap_pop Max [] = heap_pop Max [-1] /\
  heap_pop Min [] = heap_pop Min [-1].
Proof. repeat split; try discriminate; reflexivity. Qed.

(** C3. On a non-empty heap, [pop] returns the item that was at index 0,
    and that item is a stored item standing above every stored item: the
    maximum for a MaxHeap, the minimum for a MinHeap.  [peak] returns the
    same item and leaves the storage as it is. *)
Theorem pop_returns_root_extremum (o : heap_class) (l : list Z) :
  is_heap o l -> l <> [] ->
  (exists l', heap_pop o l = (Ret (zth l 0), l')) /\
  In (zth l 0) l /\
  (forall y, In y l -> above o (zth l 0) y) /\
  heap_peak o l = (Ret (zth l 0), l).
Proof.
  intros Hl Hne. destruct l as [|a t]; [congruence|].
  change (zth (a :: t) 0) with a. split; [|split; [|split]].
  - destruct (heap_pop_spec o a t) as (l' & Hrun & _). eauto.
  - now left.
  - now apply root_above.
  - apply heap_peak_cons.
Qed.

Lemma pop_returns_root_extremum_witness :
  is_heap Min [5; 10; 12; 11] /\
  (exists l', heap_pop Min [5; 10; 12; 11] = (Ret 5, l')) /\
  (forall y, In y [5; 10; 12; 11] -> 5 <= y).
Proof.
  assert (H : is_heap Min [5; 10; 12; 11]) by (apply is_heapb_sound; reflexivity).
  destruct (pop_returns_root_extremum Min [5; 10; 12; 11] H ltac:(discriminate))
    as (Hpop & _ & Hmin & _).
  split; [exact H|]. split; [exact Hpop | exact Hmin].
Defined.

(** C4. Building a heap from any array and popping until it is empty
    returns, leaves the heap empty, and yields a permutation of the array
    in descending order for a MaxHeap and in ascending order for a
    MinHeap. *)
Theorem heap_sort_sorted (o : heap_class) (xs : list Z) :
  exists out,
    heap_sort o xs = (Ret out, []) /\
    out ≡ₚ xs /\
    Sorted (above o) out.
Proof.
  unfold heap_sort.
  destruct (heap_init_spec o xs) as (l & Hinit & Hlen & Hperm & Hheap).
  rewrite (bind_Ret _ _ _ _ _ Hinit).
  rewrite (bind_Ret _ _ l l (len l)) by reflexivity.
  destruct (drain_spec o (Z.to_nat (len l)) l) as (out & Hrun & Hperm' & Hs);
    [unfold len; lia | auto |].
  exists out. repeat split; auto.
  - now rewrite Hperm'.
  - now apply StronglySorted_Sorted.
Qed.

(** C5. Heapify visits the internal nodes from [(n-2)//2] down to 0, and
    on [[12,10,5,11]] leaves exactly [[12,11,5,10]] in a MaxHeap and
    [[5,10,12,11]] in a MinHeap. *)
Theorem heapify_example :
  range_down ((len [12; 10; 5; 11] - 2) / 2) (-1) = [1; 0] /\
  MaxHeap.init [12; 10; 5; 11] = (Ret tt, [12; 11; 5; 10]) /\
  MinHeap.init [12; 10; 5; 11] = (Ret tt, [5; 10; 12; 11]).
Proof. repeat split; vm_compute; reflexivity. Qed.

(** C6. No partly changed storage is observable.  Construction returns
    with the heap property established; on a heap, every call of push,
    pop or peak either returns and leaves a heap, or - only pop or peak on
    the empty heap - leaves the storage as it was; and pop and peak on the
    empty heap leave it empty. *)
Theorem no_partial_mutation (o : heap_class) (xs l : list Z) (c : op) :
  (exists l', heap_init o xs = (Ret tt, l') /\ is_heap o l') /\
  (is_heap o l ->
   (exists v l', call o c l = (Ret v, l') /\ is_heap o l') \/
   ((c = Pop \/ c = Peak) /\ l = [] /\ snd (call o c l) = l)) /\
  snd (call o Pop []) = [] /\
  snd (call o Peak []) = [].
Proof.
  split; [|split; [|split]].
  - destruct (heap_init_spec o xs) as (l' & Hrun & _ & _ & Hheap). eauto.
  - intros Hl. destruct c as [x| |].
    + left. destruct (heap_push_spec o l x) as (l' & Hrun & _ & _ & Hheap).
      exists None, l'. split; [now apply call_push_Ret | auto].
    + left. destruct l as [|a t].
      * exists (Some (-1)), []. split; [|apply is_heap_nil].
        apply call_pop_Ret, heap_pop_nil.
      * destruct (heap_pop_spec o a t) as (l' & Hrun & _ & _ & Hheap).
        exists (Some a), l'. split; [now apply call_pop_Ret | auto].
    + destruct l as [|a t].
      * right. split; [now right|]. split; [reflexivity|].
        cbn [call]. unfold bind. now rewrite heap_peak_nil.
      * left. exists (Some a), (a :: t). split; [|exact Hl].
        apply call_peak_Ret, heap_peak_cons.
  - cbn [call]. unfold bind. now rewrite heap_pop_nil.
  - cbn [call]. unfold bind. now rewrite heap_peak_nil.
Qed.

Lemma no_partial_mutation_witness :
  is_heap Max [100; 12; 5; 10; 11] /\
  ((exists v l', call Max Pop [100; 12; 5; 10; 11] = (Ret v, l') /\ is_heap Max l') \/
   ((Pop = Pop \/ Pop = Peak) /\ [100; 12; 5; 10; 11] = [] /\
    snd (call Max Pop [100; 12; 5; 10; 11]) = [100; 12; 5; 10; 11])).
Proof.
  assert (H : is_heap Max [100; 12; 5; 10; 11])
    by (apply is_heapb_sound; reflexivity).
  destruct (no_partial_mutation Max [] [100; 12; 5; 10; 11] Pop)
    as (_ & Hstep & _).
  split; [exact H | exact (Hstep H)].
Defined.

(** C7, amended. Starting from an empty heap, for every sequence of [k]
    pushes and [j] pops in which no pop is made on an empty heap (every
    prefix has at least as many pushes as pops), all calls return and the
    number of stored items afterwards is [k - j]. *)
Theorem size_accounting (o : heap_class) (cs : list op) :
  Forall (fun c => is_peak c = false) cs ->
  pops_covered 0 cs ->
  exists outs l',
    session o cs [] = (Ret outs, l') /\
    len l' = Z.of_nat (pushes cs) - Z.of_nat (pops cs).
Proof.
  intros Hnp Hcov. unfold session.
  assert (Hinit : heap_init o [] = (Ret tt, [])) by now destruct o.
  rewrite (bind_Ret _ _ _ _ _ Hinit).
  destruct (run_size o cs [] Hnp Hcov) as (outs & l' & Hrun & Hsz).
  exists outs, l'. split; [exact Hrun|].
  unfold len. cbn [length] in Hsz. lia.
Qed.

Lemma size_accounting_witness :
  exists outs l',
    session Min [Push 3; Push 1; Pop] [] = (Ret outs, l') /\
    len l' = Z.of_nat (pushes [Push 3; Push 1; Pop])
             - Z.of_nat (pops [Push 3; Push 1; Pop]).
Proof.
  apply (size_accounting Min [Push 3; Push 1; Pop]).
  - repeat constructor.
  - intros [|[|[|[|n]]]]; unfold pops, pushes; cbn; lia.
Defined.

(** C7 as stated fails: in the sequence pop, push there are as many
    pushes as pops, but the pop on the empty heap removes nothing and one
    item is stored at the end. *)
Lemma pop_then_push_leaves_one_item :
  Forall (fun c => is_peak c = false) [Pop; Push 5] /\
  (pops [Pop; Push 5] <= pushes [Pop; Push 5])%nat /\
  session Max [Pop; Push 5] [] = (Ret [Some (-1); None], [5]) /\
  len (snd (session Max [Pop; Push 5] []))
    <> Z.of_nat (pushes [Pop; Push 5]) - Z.of_nat (pops [Pop; Push 5]).
Proof.
  split; [repeat constructor|]. split; [unfold pops, pushes; cbn; lia|].
  split; [reflexivity|]. vm_compute. discriminate.
Qed.

(** C8. Constructing a heap from an array that already satisfies the heap
    property of the class leaves the array exactly as it is, and so does
    every single sink-down on it: no swap is made. *)
Theorem heapify_heap_unchanged (o : heap_class) (l : list Z) :
  is_heap o l ->
  heap_init o l = (Ret tt, l) /\
  (forall c, 0 <= c ->
     heap_sink_down o (Z.to_nat (len l)) c (len l - 1) l = (Ret tt, l)).
Proof.
  intros Hl. split.
  - destruct o; [now apply max_heapify_id | now apply min_heapify_id].
  - intros c Hc. now apply heap_sink_down_id.
Qed.

Lemma heapify_heap_unchanged_witness :
  is_heap Max [12; 11; 5; 10] /\
  heap_init Max [12; 11; 5; 10] = (Ret tt, [12; 11; 5; 10]).
Proof.
  assert (H : is_heap Max [12; 11; 5; 10]) by (apply is_heapb_sound; reflexivity).
  split; [exact H|]. exact (proj1 (heapify_heap_unchanged Max [12; 11; 5; 10] H)).
Defined.

(** C9, amended. For every array [xs] and every sequence of calls in which
    no pop is made on an empty heap, a MinHeap built on the negated items
    and given the calls with negated arguments yields exactly the negation
    of what a MaxHeap yields on [xs]: the same kind of outcome, the
    negated returned values and the negated storage; and the same with
    the two classes exchanged. *)
Theorem min_max_mirror (xs : list Z) (cs : list op) :
  pops_covered (length xs) cs ->
  session Min (map neg_op cs) (neg xs) = dual (map neg_value) (session Max cs xs) /\
  session Max (map neg_op cs) (neg xs) = dual (map neg_value) (session Min cs xs).
Proof.
  intros Hcov. split; [now apply session_mirror|].
  rewrite <- (neg_involutive xs) at 2.
  rewrite <- (map_neg_op_involutive cs) at 2.
  rewrite session_mirror.
  - symmetry. apply dual_involutive, map_neg_value_involutive.
  - apply pops_covered_neg. unfold neg. now rewrite length_map.
Qed.

Lemma min_max_mirror_witness :
  session Min (map neg_op [Push 100; Pop; Peak]) (neg [12; 10; 5; 11])
  = dual (map neg_value) (session Max [Push 100; Pop; Peak] [12; 10; 5; 11]).
Proof.
  apply (min_max_mirror [12; 10; 5; 11] [Push 100; Pop; Peak]).
  intros [|[|[|[|n]]]]; unfold pops, pushes; cbn; lia.
Defined.

(** C9 as stated fails: popping the empty heap returns [-1] in both
    classes, so the value the MinHeap returns is not the negation of the
    value the MaxHeap returns. *)
Lemma empty_pop_is_not_negated :
  session Max [Pop] [] = (Ret [Some (-1)], []) /\
  session Min (map neg_op [Pop]) (neg []) = (Ret [Some (-1)], []) /\
  session Min (map neg_op [Pop]) (neg [])
    <> dual (map neg_value) (session Max [Pop] []).
Proof. repeat split; vm_compute; discriminate. Qed.

(** C10. Every operation keeps the stored multiset up to its documented
    change: heapify leaves a permutation of its input, [push x] leaves the
    previous items and [x], and [pop] on a non-empty heap leaves the
    previous items without one occurrence of the value it returns. *)
Theorem multiset_preserved (o : heap_class) (xs l t : list Z) (x a : Z) :
  (exists l', heap_init o xs = (Ret tt, l') /\ l' ≡ₚ xs) /\
  (exists l', heap_push o x l = (Ret tt, l') /\ l' ≡ₚ x :: l) /\
  (exists v l', heap_pop o (a :: t) = (Ret v, l') /\ v :: l' ≡ₚ a :: t).
Proof.
  split; [|split].
  - destruct (heap_init_spec o xs) as (l' & Hrun & _ & Hperm & _). eauto.
  - destruct (heap_push_spec o l x) as (l' & Hrun & _ & Hperm & _). eauto.
  - destruct (heap_pop_spec o a t) as (l' & Hrun & _ & Hperm & _).
    exists a, l'. split; [exact Hrun | now rewrite Hperm].
Qed.

(** * Beyond the claims: the heaps *)

(** MinHeap's [_swap_element] is the same code as MaxHeap's. *)
Lemma min_swap_element_eq (a b : Z) :
  MinHeap._swap_element a b = MaxHeap._swap_element a b.
Proof. reflexivity. Qed.





Lemma above_refl (o : heap_class) (x : Z) : above o x x.
Proof. destruct o; cbn; lia. Qed.

Lemma above_antisym (o : heap_class) (x y : Z) :
  above o x y -> above o y x -> x = y.
Proof. destruct o; cbn; lia. Qed.

(** The root of a non-empty heap that holds the items of [ys] is the one
    item of [ys] standing above all of them. *)
Lemma heap_root_of_permutation (o : heap_class) (a : Z) (t ys : list Z) :
  is_heap o (a :: t) -> a :: t ≡ₚ ys ->
  In a ys /\ forall y, In y ys -> above o a y.
Proof.
  intros Hl Hperm. split.
  - apply (Permutation_in a Hperm). now left.
  - intros y Hy. apply (root_above o a t Hl).
    apply (Permutation_in y (Permutation_sym Hperm) Hy).
Qed.

(** X2. After [push x] on a heap, [peak] returns [x] if the heap was
    empty and otherwise the larger (MaxHeap) or the smaller (MinHeap) of
    [x] and the old root. *)
Theorem push_then_peak (o : heap_class) (l : list Z) (x : Z) :
  is_heap o l ->
  exists l',
    heap_push o x l = (Ret tt, l') /\
    heap_peak o l' =
      (Ret match l with
           | [] => x
           | r :: _ => match o with Max => Z.max x r | Min => Z.min x r end
           end, l').
Proof.
  intros Hl.
  destruct (heap_push_spec o l x) as (l' & Hrun & Hlen & Hperm & Hheap).
  exists l'. split; [exact Hrun|]. specialize (Hheap Hl).
  destruct l' as [|a' t'];
    [apply Permutation_nil_cons in Hperm; contradiction|].
  rewrite heap_peak_cons. do 2 f_equal.
  destruct (heap_root_of_permutation o a' t' (x :: l) Hheap Hperm) as [Hin Hab].
  destruct l as [|r t].
  - destruct Hin as [<-|[]]. reflexivity.
  - assert (Hx : above o a' x) by (apply Hab; now left).
    assert (Hr : above o a' r) by (apply Hab; right; now left).
    assert (Hra : above o r a' \/ a' = x).
    { destruct Hin as [E|Hin]; [now right|left].
      now apply (root_above o r t Hl). }
    destruct o; cbn [above] in *; lia.
Qed.

Lemma push_then_peak_witness :
  exists l',
    heap_push Max 100 [12; 11; 5; 10] = (Ret tt, l') /\
    heap_peak Max l' = (Ret (Z.max 100 12), l').
Proof.
  apply (push_then_peak Max [12; 11; 5; 10] 100).
  apply is_heapb_sound. reflexivity.
Defined.

(** X3. After construction from a non-empty array, [peak] returns an
    item of the array that is its maximum (MaxHeap) or its minimum
    (MinHeap). *)
Theorem init_then_peak (o : heap_class) (x : Z) (xs : list Z) :
  exists l' m,
    heap_init o (x :: xs) = (Ret tt, l') /\
    heap_peak o l' = (Ret m, l') /\
    In m (x :: xs) /\
    forall y, In y (x :: xs) -> above o m y.
Proof.
  destruct (heap_init_spec o (x :: xs)) as (l' & Hrun & Hlen & Hperm & Hheap).
  destruct l' as [|a' t'];
    [apply Permutation_nil_cons in Hperm; contradiction|].
  exists (a' :: t'), a'. split; [exact Hrun|]. split; [apply heap_peak_cons|].
  now apply (heap_root_of_permutation o a' t').
Qed.

(** X4. Two pops in a row on a heap of at least two items both return,
    and the first returned value stands above the second: values come out
    largest first from a MaxHeap and smallest first from a MinHeap. *)
Theorem successive_pops_ordered (o : heap_class) (a b : Z) (t : list Z) :
  is_heap o (a :: b :: t) ->
  exists l1 v l2,
    heap_pop o (a :: b :: t) = (Ret a, l1) /\
    heap_pop o l1 = (Ret v, l2) /\
    above o a v /\
    v :: l2 ≡ₚ b :: t.
Proof.
  intros Hl.
  destruct (heap_pop_spec o a (b :: t)) as (l1 & Hpop1 & Hlen1 & Hperm1 & Hheap1).
  destruct l1 as [|v t1];
    [apply Permutation_nil_cons in Hperm1; contradiction|].
  destruct (heap_pop_spec o v t1) as (l2 & Hpop2 & _ & Hperm2 & _).
  exists (v :: t1), v, l2. repeat split; auto.
  - apply (root_above o a (b :: t) Hl). right.
    apply (Permutation_in v Hperm1). now left.
  - now rewrite Hperm2.
Qed.

Lemma successive_pops_ordered_witness :
  exists l1 v l2,
    heap_pop Min [5; 10; 12; 11] = (Ret 5, l1) /\
    heap_pop Min l1 = (Ret v, l2) /\
    5 <= v /\
    v :: l2 ≡ₚ [10; 12; 11].
Proof.
  apply (successive_pops_ordered Min 5 10 [12; 11]).
  apply is_heapb_sound. reflexivity.
Defined.

(** X5. Heapify is idempotent: constructing a heap from the storage a
    construction left changes nothing. *)
Theorem heapify_idempotent (o : heap_class) (xs : list Z) :
  exists l',
    heap_init o xs = (Ret tt, l') /\
    heap_init o l' = (Ret tt, l').
Proof.
  destruct (heap_init_spec o xs) as (l' & Hrun & _ & _ & Hheap).
  exists l'. split; [exact Hrun|].
  destruct o; [now apply max_heapify_id | now apply min_heapify_id].
Qed.

Lemma run_pushes (o : heap_class) (xs : list Z) :
  forall l : list Z,
    is_heap o l ->
    exists l',
      run o (map Push xs) l = (Ret (map (fun _ => None) xs), l') /\
      is_heap o l' /\ l' ≡ₚ xs ++ l.
Proof.
  induction xs as [|x xs IH]; intros l Hl.
  - exists l. repeat split; auto.
  - destruct (heap_push_spec o l x) as (l1 & Hpush & _ & Hperm & Hheap).
    destruct (IH l1 (Hheap Hl)) as (l' & Hrun & Hheap' & Hperm').
    exists l'. cbn [map].
    rewrite (run_cons_Ret _ _ _ _ _ _ _ _ (call_push_Ret _ _ _ _ Hpush) Hrun).
    repeat split; auto.
    rewrite Hperm', Hperm. cbn [app]. symmetry. apply Permutation_middle.
Qed.

(** X6. A heap used as a priority queue: pushing the items of any list
    one by one into an empty heap and then popping until it is empty
    returns the items in descending order for a MaxHeap and in ascending
    order for a MinHeap. *)
Theorem pushes_then_drain_sorted (o : heap_class) (xs : list Z) :
  exists l out,
    run o (map Push xs) [] = (Ret (map (fun _ => None) xs), l) /\
    drain o (length l) l = (Ret out, []) /\
    out ≡ₚ xs /\
    Sorted (above o) out.
Proof.
  destruct (run_pushes o xs [] (is_heap_nil o)) as (l & Hrun & Hheap & Hperm).
  destruct (drain_spec o (length l) l) as (out & Hdrain & Hperm' & Hs);
    [lia | auto |].
  exists l, out. repeat split; auto.
  - rewrite Hperm', Hperm. now rewrite app_nil_r.
  - now apply StronglySorted_Sorted.
Qed.

(** * Beyond the claims: the dynamic array *)

Lemma range_down_empty (start stop : Z) :
  start <= stop -> range_down start stop = [].
Proof.
  intros H. unfold range_down.
  replace (Z.to_nat (start - stop)) with 0%nat by lia. reflexivity.
Qed.

Lemma range_down_step (start stop : Z) :
  stop < start -> range_down start stop = start :: range_down (start - 1) stop.
Proof.
  intros H. unfold range_down.
  replace (Z.to_nat (start - stop)) with (S (Z.to_nat (start - 1 - stop))) by lia.
  cbn [seq map]. f_equal; [lia|].
  rewrite <- seq_shift, map_map. apply map_ext. intros k. lia.
Qed.

Lemma range_up_empty (start stop : Z) :
  stop <= start -> range_up start stop = [].
Proof.
  intros H. unfold range_up.
  replace (Z.to_nat (stop - start)) with 0%nat by lia. reflexivity.
Qed.

Lemma range_up_step (start stop : Z) :
  start < stop -> range_up start stop = start :: range_up (start + 1) stop.
Proof.
  intros H. unfold range_up.
  replace (Z.to_nat (stop - start)) with (S (Z.to_nat (stop - (start + 1)))) by lia.
  cbn [seq map]. f_equal; [lia|].
  rewrite <- seq_shift, map_map. apply map_ext. intros k. lia.
Qed.

Lemma dyn_dbind_Ok {A B} (m : DynamicArray.D A) (k : A -> DynamicArray.D B)
      (self self' : DynamicArray.t) (a : A) :
  m self = (DynamicArray.Ok a, self') -> DynamicArray.dbind m k self = k a self'.
Proof. intros H. unfold DynamicArray.dbind. now rewrite H. Qed.

Lemma dyn_carray_get_ok (arr : list (option DynamicArray.pyobj)) (i : Z) (v : DynamicArray.pyobj) :
  0 <= i -> arr !! Z.to_nat i = Some (Some v) ->
  DynamicArray.carray_get arr i = DynamicArray.Ok v.
Proof.
  intros Hi Hv. unfold DynamicArray.carray_get.
  rewrite norm_index_nonneg by lia.
  assert (Hlt : (Z.to_nat i < length arr)%nat)
    by (apply lookup_lt_is_Some; eauto).
  rewrite in_range_true by (unfold DynamicArray.clen; lia).
  rewrite nth_lookup, Hv. reflexivity.
Qed.

Lemma dyn_carray_get_null (arr : list (option DynamicArray.pyobj)) (i : Z) :
  0 <= i -> arr !! Z.to_nat i = Some None ->
  DynamicArray.carray_get arr i = DynamicArray.Err DynamicArray.PyValueError.
Proof.
  intros Hi Hv. unfold DynamicArray.carray_get.
  rewrite norm_index_nonneg by lia.
  assert (Hlt : (Z.to_nat i < length arr)%nat)
    by (apply lookup_lt_is_Some; eauto).
  rewrite in_range_true by (unfold DynamicArray.clen; lia).
  rewrite nth_lookup, Hv. reflexivity.
Qed.

Lemma dyn_carray_set_ok (arr : list (option DynamicArray.pyobj)) (i : Z) (v : DynamicArray.pyobj) :
  0 <= i < DynamicArray.clen arr ->
  DynamicArray.carray_set arr i v = DynamicArray.Ok (<[Z.to_nat i := Some v]> arr).
Proof.
  intros Hi. unfold DynamicArray.carray_set.
  rewrite norm_index_nonneg by lia. now rewrite in_range_true.
Qed.

Lemma dyn_get_slot_ok (n cap : Z) (arr : list (option DynamicArray.pyobj)) (i : Z)
      (v : DynamicArray.pyobj) :
  0 <= i -> arr !! Z.to_nat i = Some (Some v) ->
  DynamicArray.get_slot i (DynamicArray.mk n cap arr)
  = (DynamicArray.Ok v, DynamicArray.mk n cap arr).
Proof.
  intros Hi Hv. unfold DynamicArray.get_slot. cbn [DynamicArray._array].
  now rewrite (dyn_carray_get_ok arr i v).
Qed.

Lemma dyn_set_slot_ok (n cap : Z) (arr : list (option DynamicArray.pyobj)) (i : Z)
      (v : DynamicArray.pyobj) :
  0 <= i < DynamicArray.clen arr ->
  DynamicArray.set_slot i v (DynamicArray.mk n cap arr)
  = (DynamicArray.Ok tt, DynamicArray.mk n cap (<[Z.to_nat i := Some v]> arr)).
Proof.
  intros Hi. unfold DynamicArray.set_slot. cbn [DynamicArray._array].
  now rewrite dyn_carray_set_ok.
Qed.

(** The loop of [insert_at]: the slots [lo .. hi] move one place up. *)
Lemma dyn_shift_up (m : nat) :
  forall (n cap lo : Z) (arr : list (option DynamicArray.pyobj)),
    0 <= lo ->
    lo + Z.of_nat m < DynamicArray.clen arr ->
    (forall j, lo <= j < lo + Z.of_nat m ->
               exists v, arr !! Z.to_nat j = Some (Some v)) ->
    exists arr',
      DynamicArray.dfor (range_down (lo + Z.of_nat m - 1) (lo - 1))
        (fun ind => DynamicArray.dbind (DynamicArray.get_slot ind)
                      (fun v => DynamicArray.set_slot (ind + 1) v))
        (DynamicArray.mk n cap arr)
      = (DynamicArray.Ok tt, DynamicArray.mk n cap arr') /\
      length arr' = length arr /\
      forall j, 0 <= j ->
        arr' !! Z.to_nat j =
          if (lo + 1 <=? j) && (j <=? lo + Z.of_nat m)
          then arr !! Z.to_nat (j - 1)
          else arr !! Z.to_nat j.
Proof.
  induction m as [|m IH]; intros n cap lo arr Hlo Hlen Hlive.
  - exists arr. rewrite range_down_empty by lia. repeat split.
    intros j Hj.
    destruct (Z.leb_spec (lo + 1) j), (Z.leb_spec j (lo + Z.of_nat 0));
      cbn; auto; lia.
  - rewrite range_down_step by lia. cbn [DynamicArray.dfor].
    destruct (Hlive (lo + Z.of_nat m) ltac:(lia)) as [v Hv].
    replace (lo + Z.of_nat (S m) - 1) with (lo + Z.of_nat m) by lia.
    set (arr1 := <[Z.to_nat (lo + Z.of_nat m + 1) := Some v]> arr).
    assert (Hstep :
      DynamicArray.dbind (DynamicArray.get_slot (lo + Z.of_nat m))
        (fun v => DynamicArray.set_slot (lo + Z.of_nat m + 1) v)
        (DynamicArray.mk n cap arr)
      = (DynamicArray.Ok tt, DynamicArray.mk n cap arr1)).
    { rewrite (dyn_dbind_Ok _ _ _ _ _
                 (dyn_get_slot_ok n cap arr (lo + Z.of_nat m) v ltac:(lia) Hv)).
      apply dyn_set_slot_ok. lia. }
    rewrite (dyn_dbind_Ok _ _ _ _ _ Hstep).
    destruct (IH n cap lo arr1) as (arr' & Hrun & Hlen' & Hget).
    + lia.
    + unfold DynamicArray.clen, arr1 in *. rewrite length_insert. lia.
    + intros j Hj. destruct (Hlive j ltac:(lia)) as [w Hw]. exists w.
      unfold arr1. rewrite list_lookup_insert_ne by lia. exact Hw.
    + replace (lo + Z.of_nat m - 1 + 1 - 1) with (lo + Z.of_nat m - 1) in Hrun by lia.
      exists arr'. split; [exact Hrun|]. split.
      * rewrite Hlen'. unfold arr1. apply length_insert.
      * intros j Hj. rewrite (Hget j Hj).
        assert (Hlt : (Z.to_nat (lo + Z.of_nat m + 1) < length arr)%nat)
          by (unfold DynamicArray.clen in Hlen; lia).
        destruct (Z.leb_spec (lo + 1) j), (Z.leb_spec j (lo + Z.of_nat m)),
                 (Z.leb_spec j (lo + Z.of_nat (S m))); cbn; try lia;
          unfold arr1.
        -- rewrite list_lookup_insert_ne by lia. reflexivity.
        -- replace j with (lo + Z.of_nat m + 1) by lia.
           rewrite list_lookup_insert_eq by exact Hlt.
           rewrite <- Hv. f_equal. lia.
        -- rewrite list_lookup_insert_ne by lia. reflexivity.
        -- rewrite list_lookup_insert_ne by lia. reflexivity.
Qed.

(** The loop of [remove_at]: the slots [lo+1 .. lo+m] move one place
    down. *)
Lemma dyn_shift_down (m : nat) :
  forall (n cap lo : Z) (arr : list (option DynamicArray.pyobj)),
    0 <= lo ->
    lo + Z.of_nat m < DynamicArray.clen arr ->
    (forall j, lo + 1 <= j <= lo + Z.of_nat m ->
               exists v, arr !! Z.to_nat j = Some (Some v)) ->
    exists arr',
      DynamicArray.dfor (range_up lo (lo + Z.of_nat m))
        (fun ind => DynamicArray.dbind (DynamicArray.get_slot (ind + 1))
                      (fun v => DynamicArray.set_slot ind v))
        (DynamicArray.mk n cap arr)
      = (DynamicArray.Ok tt, DynamicArray.mk n cap arr') /\
      length arr' = length arr /\
      forall j, 0 <= j ->
        arr' !! Z.to_nat j =
          if (lo <=? j) && (j <? lo + Z.of_nat m)
          then arr !! Z.to_nat (j + 1)
          else arr !! Z.to_nat j.
Proof.
  induction m as [|m IH]; intros n cap lo arr Hlo Hlen Hlive.
  - exists arr. rewrite range_up_empty by lia. repeat split.
    intros j Hj.
    destruct (Z.leb_spec lo j), (Z.ltb_spec j (lo + Z.of_nat 0));
      cbn; auto; lia.
  - rewrite range_up_step by lia. cbn [DynamicArray.dfor].
    destruct (Hlive (lo + 1) ltac:(lia)) as [v Hv].
    set (arr1 := <[Z.to_nat lo := Some v]> arr).
    assert (Hstep :
      DynamicArray.dbind (DynamicArray.get_slot (lo + 1))
        (fun v => DynamicArray.set_slot lo v)
        (DynamicArray.mk n cap arr)
      = (DynamicArray.Ok tt, DynamicArray.mk n cap arr1)).
    { rewrite (dyn_dbind_Ok _ _ _ _ _
                 (dyn_get_slot_ok n cap arr (lo + 1) v ltac:(lia) Hv)).
      apply dyn_set_slot_ok. lia. }
    rewrite (dyn_dbind_Ok _ _ _ _ _ Hstep).
    destruct (IH n cap (lo + 1) arr1) as (arr' & Hrun & Hlen' & Hget).
    + lia.
    + unfold DynamicArray.clen, arr1 in *. rewrite length_insert. lia.
    + intros j Hj. destruct (Hlive j ltac:(lia)) as [w Hw]. exists w.
      unfold arr1. rewrite list_lookup_insert_ne by lia. exact Hw.
    + replace (lo + 1 + Z.of_nat m) with (lo + Z.of_nat (S m)) in Hrun by lia.
      exists arr'. split; [exact Hrun|]. split.
      * rewrite Hlen'. unfold arr1. apply length_insert.
      * intros j Hj. rewrite (Hget j Hj).
        assert (Hlt : (Z.to_nat lo < length arr)%nat)
          by (unfold DynamicArray.clen in Hlen; lia).
        destruct (Z.leb_spec (lo + 1) j), (Z.ltb_spec j (lo + 1 + Z.of_nat m)),
                 (Z.leb_spec lo j), (Z.ltb_spec j (lo + Z.of_nat (S m)));
          cbn; try lia; unfold arr1.
        -- rewrite list_lookup_insert_ne by lia. reflexivity.
        -- rewrite list_lookup_insert_ne by lia. reflexivity.
        -- replace j with lo by lia.
           rewrite list_lookup_insert_eq by exact Hlt. now rewrite <- Hv.
        -- rewrite list_lookup_insert_ne by lia. reflexivity.
Qed.

(** The loop of [_resize]: the slots [k .. k+m-1] are copied. *)
Lemma dyn_resize_copy (m : nat) :
  forall (k : Z) (old new : list (option DynamicArray.pyobj)),
    0 <= k ->
    k + Z.of_nat m <= DynamicArray.clen new ->
    (forall j, k <= j < k + Z.of_nat m ->
               exists v, old !! Z.to_nat j = Some (Some v)) ->
    exists new',
      DynamicArray._resize_copy (range_up k (k + Z.of_nat m)) old new
      = DynamicArray.Ok new' /\
      length new' = length new /\
      forall j, 0 <= j ->
        new' !! Z.to_nat j =
          if (k <=? j) && (j <? k + Z.of_nat m)
          then old !! Z.to_nat j
          else new !! Z.to_nat j.
Proof.
  induction m as [|m IH]; intros k old new Hk Hlen Hlive.
  - exists new. rewrite range_up_empty by lia. repeat split.
    intros j Hj.
    destruct (Z.leb_spec k j), (Z.ltb_spec j (k + Z.of_nat 0)); cbn; auto; lia.
  - rewrite range_up_step by lia. cbn [DynamicArray._resize_copy].
    destruct (Hlive k ltac:(lia)) as [v Hv].
    rewrite (dyn_carray_get_ok old k v Hk Hv).
    rewrite dyn_carray_set_ok by lia.
    set (new1 := <[Z.to_nat k := Some v]> new).
    destruct (IH (k + 1) old new1) as (new' & Hrun & Hlen' & Hget).
    + lia.
    + unfold DynamicArray.clen, new1 in *. rewrite length_insert. lia.
    + intros j Hj. apply Hlive. lia.
    + replace (k + 1 + Z.of_nat m) with (k + Z.of_nat (S m)) in Hrun by lia.
      exists new'. split; [exact Hrun|]. split.
      * rewrite Hlen'. unfold new1. apply length_insert.
      * intros j Hj. rewrite (Hget j Hj).
        assert (Hlt : (Z.to_nat k < length new)%nat)
          by (unfold DynamicArray.clen in Hlen; lia).
        destruct (Z.leb_spec (k + 1) j), (Z.ltb_spec j (k + 1 + Z.of_nat m)),
                 (Z.leb_spec k j), (Z.ltb_spec j (k + Z.of_nat (S m)));
          cbn; try lia; try reflexivity; unfold new1;
          first [ rewrite list_lookup_insert_ne by lia; reflexivity
                | replace j with k by lia;
                  rewrite list_lookup_insert_eq by exact Hlt; now rewrite Hv ].
Qed.

(** What [represents] says slot by slot. *)
Lemma dyn_take_map_Some (arr : list (option DynamicArray.pyobj))
      (xs : list DynamicArray.pyobj) :
  take (length xs) arr = map Some xs <->
  (forall j x, xs !! j = Some x -> arr !! j = Some (Some x)).
Proof.
  split.
  - intros H j x Hx.
    assert (Hj : (j < length xs)%nat) by (apply lookup_lt_is_Some; eauto).
    rewrite <- (lookup_take_lt arr (length xs) j Hj), H.
    change (map Some xs) with (Some <$> xs).
    now rewrite list_lookup_fmap, Hx.
  - intros H. apply list_eq. intros j.
    change (map Some xs) with (Some <$> xs). rewrite list_lookup_fmap.
    destruct (xs !! j) as [x|] eqn:Hx.
    + assert (Hj : (j < length xs)%nat) by (apply lookup_lt_is_Some; eauto).
      rewrite lookup_take_lt by exact Hj. cbn. now apply H.
    + apply lookup_ge_None in Hx. cbn. now apply lookup_take_ge.
Qed.

Lemma dyn_represents_bound (self : DynamicArray.t) (xs : list DynamicArray.pyobj) :
  DynamicArray.represents self xs ->
  0 <= DynamicArray._n self <= DynamicArray._capacity self.
Proof.
  intros (Hn & Hcap & Hpos & Htake).
  assert (H : length (take (length xs) (DynamicArray._array self)) = length xs)
    by (rewrite Htake; apply length_map).
  rewrite length_take in H. unfold DynamicArray.clen in Hcap. lia.
Qed.

Lemma dyn_represents_slot (self : DynamicArray.t) (xs : list DynamicArray.pyobj)
      (j : Z) :
  DynamicArray.represents self xs ->
  0 <= j < DynamicArray._n self ->
  exists v, xs !! Z.to_nat j = Some v /\
            DynamicArray._array self !! Z.to_nat j = Some (Some v).
Proof.
  intros (Hn & Hcap & Hpos & Htake) Hj.
  destruct (lookup_lt_is_Some_2 xs (Z.to_nat j) ltac:(lia)) as [v Hv].
  exists v. split; [exact Hv|].
  now apply (proj1 (dyn_take_map_Some _ xs) Htake).
Qed.

Lemma dyn_lookup_insert_at (xs : list DynamicArray.pyobj) (i j : nat)
      (e x : DynamicArray.pyobj) :
  (i <= length xs)%nat ->
  (take i xs ++ e :: drop i xs) !! j = Some x ->
  (j < i)%nat /\ xs !! j = Some x \/
  j = i /\ x = e \/
  (i < j)%nat /\ xs !! (j - 1)%nat = Some x.
Proof.
  intros Hi H.
  assert (Hlen : length (take i xs) = i) by (rewrite length_take; lia).
  destruct (Nat.lt_ge_cases j i) as [Hlt|Hge].
  - left. split; [exact Hlt|].
    rewrite lookup_app_l in H by lia. now rewrite lookup_take_lt in H.
  - right. rewrite lookup_app_r in H by lia. rewrite Hlen in H.
    destruct (j - i)%nat as [|k] eqn:E.
    + left. split; [lia|]. change (Some e = Some x) in H. congruence.
    + right. split; [lia|]. change (drop i xs !! k = Some x) in H.
      rewrite lookup_drop in H.
      replace (j - 1)%nat with (i + k)%nat by lia. exact H.
Qed.

Lemma dyn_lookup_remove_at (xs : list DynamicArray.pyobj) (i j : nat)
      (x : DynamicArray.pyobj) :
  (i < length xs)%nat ->
  (take i xs ++ drop (S i) xs) !! j = Some x ->
  (j < i)%nat /\ xs !! j = Some x \/
  (i <= j)%nat /\ xs !! S j = Some x.
Proof.
  intros Hi H.
  assert (Hlen : length (take i xs) = i) by (rewrite length_take; lia).
  destruct (Nat.lt_ge_cases j i) as [Hlt|Hge].
  - left. split; [exact Hlt|].
    rewrite lookup_app_l in H by lia. now rewrite lookup_take_lt in H.
  - right. split; [exact Hge|].
    rewrite lookup_app_r in H by lia. rewrite Hlen, lookup_drop in H.
    replace (S j) with (S i + (j - i))%nat by lia. exact H.
Qed.

Lemma dyn_represents_intro (n cap : Z) (arr : list (option DynamicArray.pyobj))
      (xs : list DynamicArray.pyobj) :
  n = Z.of_nat (length xs) ->
  cap = Z.of_nat (length arr) ->
  1 <= cap ->
  (forall j x, xs !! j = Some x -> arr !! j = Some (Some x)) ->
  DynamicArray.represents (DynamicArray.mk n cap arr) xs.
Proof.
  intros Hn Hcap Hpos Hslots. unfold DynamicArray.represents.
  cbn [DynamicArray._n DynamicArray._capacity DynamicArray._array].
  repeat split; auto. now apply dyn_take_map_Some.
Qed.

(** Before the items move, [insert_at] makes room: a full array is
    copied into one of twice the capacity, any other is left alone. *)
Lemma dyn_grow (n cap : Z) (arr : list (option DynamicArray.pyobj))
      (xs : list DynamicArray.pyobj) :
  DynamicArray.represents (DynamicArray.mk n cap arr) xs ->
  exists arr1,
    (if n =? cap then DynamicArray._resize (2 * cap) else DynamicArray.dret tt)
      (DynamicArray.mk n cap arr)
    = (DynamicArray.Ok tt,
       DynamicArray.mk n (if n =? cap then 2 * cap else cap) arr1) /\
    DynamicArray.represents
      (DynamicArray.mk n (if n =? cap then 2 * cap else cap) arr1) xs /\
    n < (if n =? cap then 2 * cap else cap).
Proof.
  intros Hrep. pose proof (dyn_represents_bound _ _ Hrep) as Hb.
  pose proof Hrep as (Hn & Hcap & Hpos & Htake). cbn in Hn, Hcap, Hpos, Htake, Hb.
  destruct (Z.eqb_spec n cap) as [E|E].
  - unfold DynamicArray._resize, DynamicArray._make_array.
    destruct (Z.ltb_spec (2 * cap) 0); [lia|]. cbn [DynamicArray._n DynamicArray._array].
    destruct (dyn_resize_copy (Z.to_nat n) 0 arr
                (replicate (Z.to_nat (2 * cap)) None))
      as (new' & Hrun & Hlen & Hget).
    + lia.
    + unfold DynamicArray.clen. rewrite length_replicate. lia.
    + intros j Hj.
      destruct (dyn_represents_slot _ xs j Hrep ltac:(cbn; lia)) as (v & _ & Hv).
      eauto.
    + replace (0 + Z.of_nat (Z.to_nat n)) with n in Hrun by lia.
      rewrite Hrun. exists new'. split; [reflexivity|]. split; [|lia].
      rewrite length_replicate in Hlen.
      apply dyn_represents_intro; [exact Hn | lia | lia |].
      intros j x Hx.
      assert (Hj : (j < length xs)%nat) by (apply lookup_lt_is_Some; eauto).
      specialize (Hget (Z.of_nat j) ltac:(lia)). rewrite Nat2Z.id in Hget.
      rewrite Hget.
      destruct (Z.leb_spec 0 (Z.of_nat j)),
               (Z.ltb_spec (Z.of_nat j) (0 + Z.of_nat (Z.to_nat n)));
        cbn; try lia.
      now apply (proj1 (dyn_take_map_Some _ xs) Htake).
  - exists arr. split; [reflexivity|]. split; [exact Hrep | lia].
Qed.

(** Run the first call of a [dbind] whose result is known. *)
Ltac dyn_step H :=
  erewrite dyn_dbind_Ok;
  [| cbn beta; cbn [DynamicArray._n DynamicArray._capacity DynamicArray._array];
     exact H].

(** What [insert_at] does at a valid index. *)
Lemma dyn_insert_at_spec (self : DynamicArray.t) (xs : list DynamicArray.pyobj)
        (element : DynamicArray.pyobj) (index : Z) :
  DynamicArray.represents self xs ->
  0 <= index <= Z.of_nat (length xs) ->
  exists self',
    DynamicArray.insert_at element index self = (DynamicArray.Ok tt, self') /\
    DynamicArray.represents self'
      (take (Z.to_nat index) xs ++ element :: drop (Z.to_nat index) xs) /\
    DynamicArray._capacity self' =
      (if DynamicArray._n self =? DynamicArray._capacity self
       then 2 * DynamicArray._capacity self
       else DynamicArray._capacity self).
Proof.
  intros Hrep Hindex. destruct self as [n cap arr].
  pose proof Hrep as (Hn & _). cbn in Hn.
  destruct (dyn_grow n cap arr xs Hrep) as (arr1 & Hgrow & Hrep1 & Hroom).
  set (cap1 := if n =? cap then 2 * cap else cap) in *.
  pose proof Hrep1 as (_ & Hcap1 & Hpos1 & Htake1). cbn in Hcap1, Hpos1, Htake1.
  unfold DynamicArray.insert_at. cbn [DynamicArray._n DynamicArray._capacity].
  replace ((0 <=? index) && (index <=? n)) with true
    by (symmetry; apply andb_true_intro; split; lia).
  dyn_step Hgrow.
  destruct (dyn_shift_up (Z.to_nat (n - index)) n cap1 index arr1)
    as (arr2 & Hshift & Hlen2 & Hget2).
  - lia.
  - lia.
  - intros j Hj.
    destruct (dyn_represents_slot _ xs j Hrep1 ltac:(cbn; lia)) as (v & _ & Hv).
    eauto.
  - replace (index + Z.of_nat (Z.to_nat (n - index)) - 1) with (n - 1) in Hshift by lia.
    dyn_step Hshift.
    assert (Hset : DynamicArray.set_slot index element (DynamicArray.mk n cap1 arr2)
                   = (DynamicArray.Ok tt,
                      DynamicArray.mk n cap1 (<[Z.to_nat index := Some element]> arr2))).
    { apply dyn_set_slot_ok. unfold DynamicArray.clen in *. lia. }
    dyn_step Hset.
    cbn [DynamicArray._n DynamicArray._capacity DynamicArray._array].
    eexists. split; [reflexivity|]. split; [|reflexivity].
    assert (Hlenx : length (take (Z.to_nat index) xs ++ element :: drop (Z.to_nat index) xs)
                    = S (length xs)).
    { rewrite length_app, length_take, length_cons, length_drop. lia. }
    apply dyn_represents_intro.
    + lia.
    + unfold DynamicArray.clen in *. rewrite length_insert. lia.
    + exact Hpos1.
    + intros j x Hx.
      assert (Hj : (j < S (length xs))%nat)
        by (rewrite <- Hlenx; apply lookup_lt_is_Some; eauto).
      apply dyn_lookup_insert_at in Hx; [|lia].
      pose proof (Hget2 (Z.of_nat j) ltac:(lia)) as Hg. rewrite Nat2Z.id in Hg.
      destruct Hx as [[Hlt Hx]|[[-> ->]|[Hgt Hx]]].
      * rewrite list_lookup_insert_ne by lia. rewrite Hg.
        destruct (Z.leb_spec (index + 1) (Z.of_nat j)); cbn; [lia|].
        now apply (proj1 (dyn_take_map_Some _ xs) Htake1).
      * apply list_lookup_insert_eq. unfold DynamicArray.clen in *. lia.
      * rewrite list_lookup_insert_ne by lia. rewrite Hg.
        destruct (Z.leb_spec (index + 1) (Z.of_nat j)),
                 (Z.leb_spec (Z.of_nat j) (index + Z.of_nat (Z.to_nat (n - index))));
          cbn; try lia.
        replace (Z.to_nat (Z.of_nat j - 1)) with (j - 1)%nat by lia.
        now apply (proj1 (dyn_take_map_Some _ xs) Htake1).
Qed.

(** X7. [insert_at] with [0 <= index <= len] returns, and the array then
    holds the old items with [element] put in at [index]; the capacity
    doubles when the array was full and stays as it was otherwise. *)
Theorem dyn_insert_at_inserts (self : DynamicArray.t) (xs : list DynamicArray.pyobj)
        (element : DynamicArray.pyobj) (index : Z) :
  DynamicArray.represents self xs ->
  0 <= index <= Z.of_nat (length xs) ->
  exists self',
    DynamicArray.insert_at element index self = (DynamicArray.Ok tt, self') /\
    DynamicArray.represents self'
      (take (Z.to_nat index) xs ++ element :: drop (Z.to_nat index) xs) /\
    DynamicArray._capacity self' =
      (if DynamicArray._n self =? DynamicArray._capacity self
       then 2 * DynamicArray._capacity self
       else DynamicArray._capacity self).
Proof.
  intros Hrep Hindex.
  destruct (dyn_insert_at_spec self xs element index Hrep Hindex)
    as (self' & Hrun & Hrep' & Hcap).
  exists self'. split; [exact Hrun|]. split; [exact Hrep' | exact Hcap].
Qed.

Lemma dyn_insert_at_inserts_witness :
  exists self',
    DynamicArray.insert_at (DynamicArray.PyInt 7) 1
      (DynamicArray.mk 2 2 [Some (DynamicArray.PyInt 1); Some (DynamicArray.PyInt 5)])
    = (DynamicArray.Ok tt, self') /\
    DynamicArray.represents self'
      [DynamicArray.PyInt 1; DynamicArray.PyInt 7; DynamicArray.PyInt 5] /\
    DynamicArray._capacity self' = 4.
Proof.
  apply (dyn_insert_at_inserts
           (DynamicArray.mk 2 2 [Some (DynamicArray.PyInt 1); Some (DynamicArray.PyInt 5)])
           [DynamicArray.PyInt 1; DynamicArray.PyInt 5]
           (DynamicArray.PyInt 7) 1).
  - repeat split; cbn; lia.
  - cbn. lia.
Defined.

(** X8. [insert_at] with an index below 0 or above the number of items
    raises [IndexError] and leaves every field of the object as it was;
    in particular a negative index does not count from the end. *)
Theorem dyn_insert_at_rejects (self : DynamicArray.t)
        (element : DynamicArray.pyobj) (index : Z) :
  index < 0 \/ DynamicArray._n self < index ->
  DynamicArray.insert_at element index self
  = (DynamicArray.Err DynamicArray.PyIndexError, self).
Proof.
  intros H. unfold DynamicArray.insert_at.
  replace ((0 <=? index) && (index <=? DynamicArray._n self)) with false;
    [reflexivity|].
  symmetry. apply andb_false_iff.
  destruct H; [left; apply Z.leb_gt | right; apply Z.leb_gt]; lia.
Qed.

Lemma dyn_insert_at_rejects_witness :
  DynamicArray.insert_at DynamicArray.PyNone (-1)
    (DynamicArray.mk 1 1 [Some (DynamicArray.PyInt 1)])
  = (DynamicArray.Err DynamicArray.PyIndexError,
     DynamicArray.mk 1 1 [Some (DynamicArray.PyInt 1)]).
Proof.
  apply (dyn_insert_at_rejects (DynamicArray.mk 1 1 [Some (DynamicArray.PyInt 1)])).
  left. lia.
Defined.

(** X9. [append] always returns on a well-formed array and puts the
    element after the last item. *)
Theorem dyn_append_appends (self : DynamicArray.t) (xs : list DynamicArray.pyobj)
        (element : DynamicArray.pyobj) :
  DynamicArray.represents self xs ->
  exists self',
    DynamicArray.append element self = (DynamicArray.Ok tt, self') /\
    DynamicArray.represents self' (xs ++ [element]).
Proof.
  intros Hrep. pose proof Hrep as (Hn & _).
  destruct (dyn_insert_at_spec self xs element (DynamicArray._n self) Hrep)
    as (self' & Hrun & Hrep' & _); [lia|].
  exists self'. split; [exact Hrun|].
  rewrite Hn, Nat2Z.id in Hrep'.
  now rewrite firstn_all, drop_all in Hrep'.
Qed.

Lemma dyn_append_appends_witness :
  exists self',
    DynamicArray.append (DynamicArray.PyInt 1)
      (DynamicArray.mk 0 1 [None])
    = (DynamicArray.Ok tt, self') /\
    DynamicArray.represents self' ([] ++ [DynamicArray.PyInt 1]).
Proof.
  apply (dyn_append_appends (DynamicArray.mk 0 1 [None]) []).
  repeat split; cbn; lia.
Defined.

(** What [remove_at] does at a valid index. *)
Lemma dyn_remove_at_spec (self : DynamicArray.t) (xs : list DynamicArray.pyobj)
        (index : Z) :
  DynamicArray.represents self xs ->
  0 <= index < Z.of_nat (length xs) ->
  exists self',
    DynamicArray.remove_at index self = (DynamicArray.Ok tt, self') /\
    DynamicArray.represents self'
      (take (Z.to_nat index) xs ++ drop (S (Z.to_nat index)) xs) /\
    DynamicArray._capacity self' = DynamicArray._capacity self /\
    DynamicArray._array self' !! (length xs - 1)%nat = Some (Some DynamicArray.PyNone).
Proof.
  intros Hrep Hindex. destruct self as [n cap arr].
  pose proof (dyn_represents_bound _ _ Hrep) as Hb.
  pose proof Hrep as (Hn & Hcap & Hpos & Htake). cbn in Hn, Hcap, Hpos, Htake, Hb.
  unfold DynamicArray.remove_at. cbn [DynamicArray._n DynamicArray._capacity].
  replace ((0 <=? index) && (index <? n)) with true
    by (symmetry; apply andb_true_intro; split; lia).
  destruct (dyn_shift_down (Z.to_nat (n - 1 - index)) n cap index arr)
    as (arr1 & Hshift & Hlen1 & Hget1).
  - lia.
  - lia.
  - intros j Hj.
    destruct (dyn_represents_slot _ xs j Hrep ltac:(cbn; lia)) as (v & _ & Hv).
    eauto.
  - replace (index + Z.of_nat (Z.to_nat (n - 1 - index))) with (n - 1) in Hshift by lia.
    dyn_step Hshift.
    assert (Hset : DynamicArray.set_slot (n - 1) DynamicArray.PyNone
                     (DynamicArray.mk n cap arr1)
                   = (DynamicArray.Ok tt,
                      DynamicArray.mk n cap
                        (<[Z.to_nat (n - 1) := Some DynamicArray.PyNone]> arr1))).
    { apply dyn_set_slot_ok. unfold DynamicArray.clen in *. lia. }
    dyn_step Hset.
    cbn [DynamicArray._n DynamicArray._capacity DynamicArray._array].
    eexists. split; [reflexivity|]. split; [|split; [reflexivity|]].
    + assert (Hlenx : length (take (Z.to_nat index) xs ++ drop (S (Z.to_nat index)) xs)
                      = (length xs - 1)%nat).
      { rewrite length_app, length_take, length_drop. lia. }
      apply dyn_represents_intro.
      * lia.
      * unfold DynamicArray.clen in *. rewrite length_insert. lia.
      * exact Hpos.
      * intros j x Hx.
        assert (Hj : (j < length xs - 1)%nat)
          by (rewrite <- Hlenx; apply lookup_lt_is_Some; eauto).
        apply dyn_lookup_remove_at in Hx; [|lia].
        pose proof (Hget1 (Z.of_nat j) ltac:(lia)) as Hg. rewrite Nat2Z.id in Hg.
        rewrite list_lookup_insert_ne by lia. rewrite Hg.
        destruct Hx as [[Hlt Hx]|[Hge Hx]].
        -- destruct (Z.leb_spec index (Z.of_nat j)); cbn; [lia|].
           now apply (proj1 (dyn_take_map_Some _ xs) Htake).
        -- destruct (Z.leb_spec index (Z.of_nat j)),
                    (Z.ltb_spec (Z.of_nat j)
                       (index + Z.of_nat (Z.to_nat (n - 1 - index))));
             cbn; try lia.
           replace (Z.to_nat (Z.of_nat j + 1)) with (S j) by lia.
           now apply (proj1 (dyn_take_map_Some _ xs) Htake).
    + cbn [DynamicArray._array].
      replace (length xs - 1)%nat with (Z.to_nat (n - 1)) by lia.
      apply list_lookup_insert_eq. unfold DynamicArray.clen in *. lia.
Qed.

(** X10. [remove_at] with [0 <= index < len] returns, and the array then
    holds the old items without the one at [index]; the capacity is not
    reduced, and the slot that held the last item now refers to [None]. *)
Theorem dyn_remove_at_removes (self : DynamicArray.t) (xs : list DynamicArray.pyobj)
        (index : Z) :
  DynamicArray.represents self xs ->
  0 <= index < Z.of_nat (length xs) ->
  exists self',
    DynamicArray.remove_at index self = (DynamicArray.Ok tt, self') /\
    DynamicArray.represents self'
      (take (Z.to_nat index) xs ++ drop (S (Z.to_nat index)) xs) /\
    DynamicArray._capacity self' = DynamicArray._capacity self /\
    DynamicArray._array self' !! (length xs - 1)%nat = Some (Some DynamicArray.PyNone).
Proof.
  intros Hrep Hindex.
  destruct (dyn_remove_at_spec self xs index Hrep Hindex)
    as (self' & Hrun & Hrep' & Hcap & Hnone).
  exists self'. split; [exact Hrun|]. split; [exact Hrep'|].
  split; [exact Hcap | exact Hnone].
Qed.

Lemma dyn_remove_at_removes_witness :
  exists self',
    DynamicArray.remove_at 0
      (DynamicArray.mk 2 2 [Some (DynamicArray.PyInt 1); Some (DynamicArray.PyInt 5)])
    = (DynamicArray.Ok tt, self') /\
    DynamicArray.represents self' [DynamicArray.PyInt 5] /\
    DynamicArray._capacity self' = 2 /\
    DynamicArray._array self' !! 1%nat = Some (Some DynamicArray.PyNone).
Proof.
  apply (dyn_remove_at_removes
           (DynamicArray.mk 2 2 [Some (DynamicArray.PyInt 1); Some (DynamicArray.PyInt 5)])
           [DynamicArray.PyInt 1; DynamicArray.PyInt 5] 0).
  - repeat split; cbn; lia.
  - cbn. lia.
Defined.

(** X11. [remove_at] with an index below 0 or not below the number of
    items raises [IndexError] and leaves the object as it was; so does
    [delete] on an array with no items. *)
Theorem dyn_remove_at_rejects (self : DynamicArray.t) (index : Z) :
  (index < 0 \/ DynamicArray._n self <= index ->
   DynamicArray.remove_at index self
   = (DynamicArray.Err DynamicArray.PyIndexError, self)) /\
  (DynamicArray._n self <= 0 ->
   DynamicArray.delete self
   = (DynamicArray.Err DynamicArray.PyIndexError, self)).
Proof.
  assert (H : forall i, i < 0 \/ DynamicArray._n self <= i ->
              DynamicArray.remove_at i self
              = (DynamicArray.Err DynamicArray.PyIndexError, self)).
  { intros i Hi. unfold DynamicArray.remove_at.
    replace ((0 <=? i) && (i <? DynamicArray._n self)) with false;
      [reflexivity|].
    symmetry. apply andb_false_iff.
    destruct Hi; [left; apply Z.leb_gt | right; apply Z.ltb_ge]; lia. }
  split; [apply H|].
  intros Hn. unfold DynamicArray.delete. apply H. lia.
Qed.

Lemma dyn_remove_at_rejects_witness :
  DynamicArray.remove_at 1 (DynamicArray.mk 1 1 [Some (DynamicArray.PyInt 1)])
  = (DynamicArray.Err DynamicArray.PyIndexError,
     DynamicArray.mk 1 1 [Some (DynamicArray.PyInt 1)]) /\
  DynamicArray.delete (DynamicArray.mk 0 1 [None])
  = (DynamicArray.Err DynamicArray.PyIndexError, DynamicArray.mk 0 1 [None]).
Proof.
  split.
  - apply (proj1 (dyn_remove_at_rejects
                    (DynamicArray.mk 1 1 [Some (DynamicArray.PyInt 1)]) 1)).
    right. cbn. lia.
  - apply (proj2 (dyn_remove_at_rejects (DynamicArray.mk 0 1 [None]) 0)).
    cbn. lia.
Defined.

(** X12. [delete] on an array with at least one item removes the last
    item and nothing else. *)
Theorem dyn_delete_removes_last (self : DynamicArray.t)
        (xs : list DynamicArray.pyobj) (x : DynamicArray.pyobj) :
  DynamicArray.represents self (xs ++ [x]) ->
  exists self',
    DynamicArray.delete self = (DynamicArray.Ok tt, self') /\
    DynamicArray.represents self' xs.
Proof.
  intros Hrep. pose proof Hrep as (Hn & _).
  rewrite length_app in Hn. cbn [length] in Hn.
  destruct (dyn_remove_at_spec self (xs ++ [x]) (DynamicArray._n self - 1) Hrep)
    as (self' & Hrun & Hrep' & _).
  - rewrite length_app. cbn [length]. lia.
  - exists self'. split; [exact Hrun|].
    replace (Z.to_nat (DynamicArray._n self - 1)) with (length xs) in Hrep' by lia.
    rewrite take_app_length in Hrep'.
    rewrite drop_ge in Hrep' by (rewrite length_app; cbn [length]; lia).
    now rewrite app_nil_r in Hrep'.
Qed.

(** What [__getitem__] does inside and outside the bounds. *)
Lemma dyn_getitem_spec (self : DynamicArray.t) (xs : list DynamicArray.pyobj)
        (index : Z) :
  DynamicArray.represents self xs ->
  (forall x, 0 <= index -> xs !! Z.to_nat index = Some x ->
     DynamicArray.__getitem__ index self = (DynamicArray.Ok x, self)) /\
  (index < 0 \/ Z.of_nat (length xs) <= index ->
     DynamicArray.__getitem__ index self
     = (DynamicArray.Err DynamicArray.PyIndexError, self)).
Proof.
  intros Hrep. pose proof Hrep as (Hn & _ & _ & Htake).
  unfold DynamicArray.__getitem__. split.
  - intros x Hi Hx.
    assert (Hlt : (Z.to_nat index < length xs)%nat)
      by (apply lookup_lt_is_Some; eauto).
    replace ((0 <=? index) && (index <? DynamicArray._n self)) with true
      by (symmetry; apply andb_true_intro; split; lia).
    unfold DynamicArray.get_slot.
    now rewrite (dyn_carray_get_ok _ index x Hi
                   (proj1 (dyn_take_map_Some _ xs) Htake _ _ Hx)).
  - intros H.
    replace ((0 <=? index) && (index <? DynamicArray._n self)) with false;
      [reflexivity|].
    symmetry. apply andb_false_iff.
    destruct H; [left; apply Z.leb_gt | right; apply Z.ltb_ge]; lia.
Qed.

(** X13. [__getitem__] returns the item at an index from 0 to below the
    number of items and raises [IndexError] at any other index, a negative
    one included; the object is not changed. *)
Theorem dyn_getitem_bounds (self : DynamicArray.t) (xs : list DynamicArray.pyobj)
        (index : Z) :
  DynamicArray.represents self xs ->
  (forall x, 0 <= index -> xs !! Z.to_nat index = Some x ->
     DynamicArray.__getitem__ index self = (DynamicArray.Ok x, self)) /\
  (index < 0 \/ Z.of_nat (length xs) <= index ->
     DynamicArray.__getitem__ index self
     = (DynamicArray.Err DynamicArray.PyIndexError, self)).
Proof.
  intros Hrep.
  destruct (dyn_getitem_spec self xs index Hrep) as [Hin Hout].
  split; [exact Hin | exact Hout].
Qed.

Lemma dyn_getitem_bounds_witness :
  DynamicArray.__getitem__ 1
    (DynamicArray.mk 2 2 [Some (DynamicArray.PyInt 1); Some (DynamicArray.PyInt 5)])
  = (DynamicArray.Ok (DynamicArray.PyInt 5),
     DynamicArray.mk 2 2 [Some (DynamicArray.PyInt 1); Some (DynamicArray.PyInt 5)]) /\
  DynamicArray.__getitem__ (-1)
    (DynamicArray.mk 2 2 [Some (DynamicArray.PyInt 1); Some (DynamicArray.PyInt 5)])
  = (DynamicArray.Err DynamicArray.PyIndexError,
     DynamicArray.mk 2 2 [Some (DynamicArray.PyInt 1); Some (DynamicArray.PyInt 5)]).
Proof.
  assert (Hrep : DynamicArray.represents
            (DynamicArray.mk 2 2 [Some (DynamicArray.PyInt 1); Some (DynamicArray.PyInt 5)])
            [DynamicArray.PyInt 1; DynamicArray.PyInt 5])
    by (repeat split; cbn; lia).
  split.
  - apply (proj1 (dyn_getitem_bounds _ _ 1 Hrep)); [lia | reflexivity].
  - apply (proj2 (dyn_getitem_bounds _ _ (-1) Hrep)). left. lia.
Defined.

(** X14. Removing at the index just inserted at gives back an array that
    holds the original items. *)
Theorem dyn_insert_then_remove (self : DynamicArray.t) (xs : list DynamicArray.pyobj)
        (element : DynamicArray.pyobj) (index : Z) :
  DynamicArray.represents self xs ->
  0 <= index <= Z.of_nat (length xs) ->
  exists self1 self2,
    DynamicArray.insert_at element index self = (DynamicArray.Ok tt, self1) /\
    DynamicArray.remove_at index self1 = (DynamicArray.Ok tt, self2) /\
    DynamicArray.represents self2 xs.
Proof.
  intros Hrep Hindex.
  destruct (dyn_insert_at_spec self xs element index Hrep Hindex)
    as (self1 & Hins & Hrep1 & _).
  assert (Hlen : length (take (Z.to_nat index) xs) = Z.to_nat index)
    by (rewrite length_take; lia).
  destruct (dyn_remove_at_spec self1 _ index Hrep1)
    as (self2 & Hrem & Hrep2 & _).
  - rewrite length_app, Hlen, length_cons, length_drop. lia.
  - exists self1, self2. split; [exact Hins|]. split; [exact Hrem|].
    rewrite take_app_length' in Hrep2 by (symmetry; exact Hlen).
    rewrite drop_app_ge in Hrep2 by lia.
    rewrite Hlen in Hrep2.
    replace (S (Z.to_nat index) - Z.to_nat index)%nat with 1%nat in Hrep2 by lia.
    change (drop 1 (element :: drop (Z.to_nat index) xs))
      with (drop (Z.to_nat index) xs) in Hrep2.
    now rewrite take_drop in Hrep2.
Qed.

Lemma dyn_insert_then_remove_witness :
  exists self1 self2,
    DynamicArray.insert_at (DynamicArray.PyInt 7) 0
      (DynamicArray.mk 1 1 [Some (DynamicArray.PyInt 1)])
    = (DynamicArray.Ok tt, self1) /\
    DynamicArray.remove_at 0 self1 = (DynamicArray.Ok tt, self2) /\
    DynamicArray.represents self2 [DynamicArray.PyInt 1].
Proof.
  apply (dyn_insert_then_remove
           (DynamicArray.mk 1 1 [Some (DynamicArray.PyInt 1)])
           [DynamicArray.PyInt 1] (DynamicArray.PyInt 7) 0).
  - repeat split; cbn; lia.
  - cbn. lia.
Defined.

(** X15. After [insert_at element index], [__getitem__ index] returns
    [element] and [__len__] returns one more than before. *)
Theorem dyn_insert_then_getitem (self : DynamicArray.t) (xs : list DynamicArray.pyobj)
        (element : DynamicArray.pyobj) (index : Z) :
  DynamicArray.represents self xs ->
  0 <= index <= Z.of_nat (length xs) ->
  exists self',
    DynamicArray.insert_at element index self = (DynamicArray.Ok tt, self') /\
    DynamicArray.__getitem__ index self' = (DynamicArray.Ok element, self') /\
    DynamicArray.__len__ self' = (DynamicArray.Ok (Z.of_nat (length xs) + 1), self').
Proof.
  intros Hrep Hindex.
  destruct (dyn_insert_at_spec self xs element index Hrep Hindex)
    as (self' & Hins & Hrep' & _).
  exists self'. split; [exact Hins|]. split.
  - apply (proj1 (dyn_getitem_spec self' _ index Hrep')); [lia|].
    rewrite lookup_app_r by (rewrite length_take; lia).
    rewrite length_take.
    replace (Z.to_nat index - Z.to_nat index `min` length xs)%nat with 0%nat by lia.
    reflexivity.
  - destruct Hrep' as (Hn & _). unfold DynamicArray.__len__. rewrite Hn.
    rewrite length_app, length_take, length_cons, length_drop.
    do 2 f_equal. lia.
Qed.

Lemma dyn_insert_then_getitem_witness :
  exists self',
    DynamicArray.insert_at (DynamicArray.PyInt 7) 1
      (DynamicArray.mk 1 1 [Some (DynamicArray.PyInt 1)])
    = (DynamicArray.Ok tt, self') /\
    DynamicArray.__getitem__ 1 self' = (DynamicArray.Ok (DynamicArray.PyInt 7), self') /\
    DynamicArray.__len__ self' = (DynamicArray.Ok 2, self').
Proof.
  apply (dyn_insert_then_getitem
           (DynamicArray.mk 1 1 [Some (DynamicArray.PyInt 1)])
           [DynamicArray.PyInt 1] (DynamicArray.PyInt 7) 1).
  - repeat split; cbn; lia.
  - cbn. lia.
Defined.

Lemma pow2_log2_up_step (n cap : Z) :
  0 <= n ->
  cap = 2 ^ Z.log2_up (Z.max 1 n) ->
  (if n =? cap then 2 * cap else cap) = 2 ^ Z.log2_up (Z.max 1 (n + 1)).
Proof.
  intros Hn Hcap.
  destruct (Z.eq_dec n 0) as [->|Hn0].
  - cbn in Hcap. subst cap. reflexivity.
  - rewrite Z.max_r in Hcap by lia. rewrite Z.max_r by lia.
    pose proof (Z.log2_up_nonneg n) as Hk.
    set (k := Z.log2_up n) in *.
    destruct (Z.eq_dec n 1) as [->|Hn1].
    + subst k cap. reflexivity.
    + pose proof (Z.log2_up_spec n ltac:(lia)) as Hspec. fold k in Hspec.
      assert (Hk1 : 1 <= k).
      { destruct (Z.eq_dec k 0) as [E|E]; [|lia].
        rewrite E in Hspec. cbn in Hspec. lia. }
      assert (Hpow : 2 ^ (k + 1) = 2 * 2 ^ k)
        by (replace (k + 1) with (Z.succ k) by lia; rewrite Z.pow_succ_r by lia;
            reflexivity).
      destruct (Z.eqb_spec n cap) as [E|E].
      * rewrite (Z.log2_up_unique (n + 1) (k + 1)); [lia | lia |].
        replace (Z.pred (k + 1)) with k by lia. lia.
      * rewrite (Z.log2_up_unique (n + 1) k); [lia | lia |]. lia.
Qed.

Lemma dyn_append_all_spec (es : list DynamicArray.pyobj) :
  forall (self : DynamicArray.t) (xs : list DynamicArray.pyobj),
    DynamicArray.represents self xs ->
    DynamicArray._capacity self = 2 ^ Z.log2_up (Z.max 1 (Z.of_nat (length xs))) ->
    exists self',
      dyn_append_all es self = (DynamicArray.Ok tt, self') /\
      DynamicArray.represents self' (xs ++ es) /\
      DynamicArray._capacity self'
      = 2 ^ Z.log2_up (Z.max 1 (Z.of_nat (length (xs ++ es)))).
Proof.
  induction es as [|e es IH]; intros self xs Hrep Hcap.
  - exists self. rewrite app_nil_r.
    split; [reflexivity|]. split; [exact Hrep | exact Hcap].
  - pose proof Hrep as (Hn & _).
    destruct (dyn_insert_at_spec self xs e (DynamicArray._n self) Hrep)
      as (self1 & Hrun & Hrep1 & Hcap1); [lia|].
    rewrite Hn, Nat2Z.id in Hrep1.
    rewrite firstn_all, drop_all in Hrep1.
    rewrite <- Hn in Hcap.
    assert (H0 : 0 <= DynamicArray._n self) by lia.
    rewrite (pow2_log2_up_step _ _ H0 Hcap) in Hcap1.
    destruct (IH self1 (xs ++ [e]) Hrep1) as (self' & Hrun' & Hrep' & Hcap').
    + rewrite Hcap1, length_app. cbn [length]. do 3 f_equal. lia.
    + exists self'. cbn [dyn_append_all].
      assert (Happ : DynamicArray.append e self = (DynamicArray.Ok tt, self1))
        by exact Hrun.
      rewrite (dyn_dbind_Ok _ _ _ _ _ Happ).
      rewrite <- app_assoc in Hrep', Hcap'.
      split; [exact Hrun'|]. split; [exact Hrep' | exact Hcap'].
Qed.

(** X16. Appending the items of any list to a new [DynamicArray()] returns,
    the array then holds exactly these items in order, and its capacity is
    the smallest power of two that is at least the number of items (1 for
    no item): the capacity doubles each time the array is full. *)
Theorem dyn_appends_capacity (es : list DynamicArray.pyobj) :
  exists self0 self',
    DynamicArray.__init__ = DynamicArray.Ok self0 /\
    DynamicArray.represents self0 [] /\
    dyn_append_all es self0 = (DynamicArray.Ok tt, self') /\
    DynamicArray.represents self' es /\
    DynamicArray._capacity self'
    = 2 ^ Z.log2_up (Z.max 1 (Z.of_nat (length es))).
Proof.
  assert (Hrep0 : DynamicArray.represents (DynamicArray.mk 0 1 [None]) [])
    by (repeat split; cbn; lia).
  destruct (dyn_append_all_spec es _ [] Hrep0 eq_refl) as (self' & Hrun & Hrep & Hcap).
  exists (DynamicArray.mk 0 1 [None]), self'.
  split; [reflexivity|]. split; [exact Hrep0|]. split; [exact Hrun|].
  split; [exact Hrep | exact Hcap].
Qed.

Lemma string_app_nil_r (s : String.string) : String.append s ""%string = s.
Proof. induction s as [|c s IH]; cbn; [reflexivity | now rewrite IH]. Qed.


Lemma string_concat_empty_cons (s : String.string) (l : list String.string) :
  String.concat ""%string (s :: l) = String.append s (String.concat ""%string l).
Proof.
  destruct l as [|t l]; cbn [String.concat].
  - now rewrite string_app_nil_r.
  - reflexivity.
Qed.





(** X18. [__repr__] of an array that holds no item reads slot 0 all the
    same: on a slot never written it raises [ValueError], and on a slot
    left behind by a removal it returns that object's [str] form between
    square brackets; the object is not changed. *)
Theorem dyn_repr_no_items (self : DynamicArray.t) :
  DynamicArray.represents self [] ->
  (DynamicArray._array self !! 0%nat = Some None /\
   DynamicArray.__repr__ self
   = (DynamicArray.Err DynamicArray.PyValueError, self)) \/
  (exists v,
     DynamicArray._array self !! 0%nat = Some (Some v) /\
     DynamicArray.__repr__ self
     = (DynamicArray.Ok
          (String.append "[" (String.append (DynamicArray.str v) "]"))%string,
        self)).
Proof.
  intros (Hn & Hcap & Hpos & _). cbn [length] in Hn.
  unfold DynamicArray.clen in Hcap.
  destruct (lookup_lt_is_Some_2 (DynamicArray._array self) 0 ltac:(lia))
    as [[v|] Hv].
  - right. exists v. split; [exact Hv|]. unfold DynamicArray.__repr__.
    rewrite (dyn_carray_get_ok _ 0 v ltac:(lia) Hv).
    rewrite Hn, range_up_empty by lia. cbn [DynamicArray._repr_loop app].
    rewrite !string_concat_empty_cons. cbn [String.concat].
    now rewrite string_app_nil_r.
  - left. split; [exact Hv|]. unfold DynamicArray.__repr__.
    now rewrite (dyn_carray_get_null _ 0 ltac:(lia) Hv).
Qed.

Lemma dyn_repr_no_items_witness :
  DynamicArray.__repr__ (DynamicArray.mk 0 1 [None])
  = (DynamicArray.Err DynamicArray.PyValueError, DynamicArray.mk 0 1 [None]) /\
  DynamicArray.__repr__ (DynamicArray.mk 0 1 [Some DynamicArray.PyNone])
  = (DynamicArray.Ok "[None]"%string, DynamicArray.mk 0 1 [Some DynamicArray.PyNone]).
Proof.
  split.
  - destruct (dyn_repr_no_items (DynamicArray.mk 0 1 [None]))
      as [[_ H]|(v & Hv & _)]; [repeat split; cbn; lia | exact H | discriminate].
  - destruct (dyn_repr_no_items (DynamicArray.mk 0 1 [Some DynamicArray.PyNone]))
      as [[Hv _]|(v & Hv & H)]; [repeat split; cbn; lia | discriminate |].
    injection Hv as <-. exact H.
Defined.




Lemma dyn_delete_removes_last_witness :
  exists self',
    DynamicArray.delete
      (DynamicArray.mk 2 2 [Some (DynamicArray.PyInt 1); Some (DynamicArray.PyInt 5)])
    = (DynamicArray.Ok tt, self') /\
    DynamicArray.represents self' [DynamicArray.PyInt 1].
Proof.
  apply (dyn_delete_removes_last
           (DynamicArray.mk 2 2 [Some (DynamicArray.PyInt 1); Some (DynamicArray.PyInt 5)])
           [DynamicArray.PyInt 1] (DynamicArray.PyInt 5)).
  repeat split; cbn; lia.
Defined.
